(** * A shallow embedding of the DOM query cache and the DOM query tool

    The development follows the TypeScript sources
    - [src/utils/domCache.ts]: the class [DOMCache] (a bounded, lazily
      expiring result cache on top of a JavaScript [Map]);
    - [src/tools/cache.ts]: the tools [browser_clear_cache],
      [browser_cache_status] and [browser_query_dom].

    Conventions of the embedding.
    - JavaScript numbers that the code uses as counters, sizes and
      millisecond time stamps are integers of [Z]; fractional numbers, [NaN]
      and the infinities are outside the model (the one [Infinity] of the
      source, the start value of [findOldestEntry], is [None]).
    - Strings are [string]; the model is that of ASCII text, with ASCII
      letter case, white space and word characters.
    - An optional argument or property is an [option]; [undefined] is [None].
    - [Date.now()] is an explicit argument of every operation that reads the
      clock, one argument per read.
    - A [Map] is an association list in insertion order: the order is what
      [findOldestEntry] iterates in.
    - A method that mutates [this] returns the new object.
    - A call of a handler runs to its end before the next one starts: calls
      that interleave at an [await] are outside the model. *)

From Stdlib Require Import ZArith List String Ascii Bool Lia.
From Stdlib Require Import DecimalString Sorted Permutation.
From Stdlib Require DecimalZ DecimalPos.
Import ListNotations.

Local Open Scope string_scope.
Local Open Scope list_scope.
Local Open Scope Z_scope.

(** ** JavaScript primitives used by the sources *)

Module JS.

(** [ToBoolean] on a string: only the empty string is falsy. *)
Definition truthyString (s : string) : bool :=
  match s with
  | EmptyString => false
  | String _ _ => true
  end.

(** [ToBoolean] on an (integer) number: only [0] is falsy. *)
Definition truthyNumber (n : Z) : bool := negb (n =? 0)%Z.

(** [x || d] for an optional string [x]. *)
Definition orString (x : option string) (d : string) : string :=
  match x with
  | Some s => if truthyString s then s else d
  | None => d
  end.

(** [x || d] for an optional number [x]. *)
Definition orNumber (x : option Z) (d : Z) : Z :=
  match x with
  | Some n => if truthyNumber n then n else d
  | None => d
  end.

(** [if (x)] for an optional string and an optional number. *)
Definition truthyOptString (x : option string) : bool :=
  match x with Some s => truthyString s | None => false end.

Definition truthyOptNumber (x : option Z) : bool :=
  match x with Some n => truthyNumber n | None => false end.

(** [String(n)] as a template literal prints an integer: decimal digits,
    with a leading minus sign for a negative one. *)
Definition numberToString (n : Z) : string :=
  NilZero.string_of_int (Z.to_int n).

(** Character classes, on the character code. *)
Definition code (c : ascii) : N := N_of_ascii c.

Definition between (lo hi : N) (c : ascii) : bool :=
  ((lo <=? code c) && (code c <=? hi))%N.

Definition isUpper : ascii -> bool := between 65 90.
Definition isLower : ascii -> bool := between 97 122.
Definition isDigit : ascii -> bool := between 48 57.

(** The characters that [\w] matches: letters, digits and the underscore. *)
Definition isWordChar (c : ascii) : bool :=
  isUpper c || isLower c || isDigit c || (code c =? 95)%N.

(** Line feed and carriage return. *)
Definition isLineTerminator (c : ascii) : bool :=
  ((code c =? 10) || (code c =? 13))%N.

(** White space as [trim] strips it: tab, line feed, vertical tab, form
    feed, carriage return and space. *)
Definition isWhiteSpace (c : ascii) : bool :=
  between 9 13 c || (code c =? 32)%N.

Definition toLowerChar (c : ascii) : ascii :=
  if isUpper c then ascii_of_N (code c + 32) else c.

(** [s.toLowerCase()]. *)
Fixpoint toLowerCase (s : string) : string :=
  match s with
  | EmptyString => EmptyString
  | String c rest => String (toLowerChar c) (toLowerCase rest)
  end.

(** [s.startsWith(t)]. *)
Fixpoint startsWith (s t : string) {struct t} : bool :=
  match t with
  | EmptyString => true
  | String b t' =>
      match s with
      | EmptyString => false
      | String a s' => Ascii.eqb a b && startsWith s' t'
      end
  end.

(** [s.includes(t)]. *)
Fixpoint includes (s t : string) : bool :=
  startsWith s t
  || match s with
     | EmptyString => false
     | String _ rest => includes rest t
     end.

(** [a.slice(start, end)] of an array: a negative index counts from the
    end, and both indices are clamped to the bounds. *)
Definition relativeIndex (len i : Z) : Z :=
  if i <? 0 then Z.max (len + i) 0 else Z.min i len.

Definition slice {A : Type} (start finish : Z) (a : list A) : list A :=
  let len := Z.of_nat (List.length a) in
  let k := relativeIndex len start in
  let final := relativeIndex len finish in
  firstn (Z.to_nat (final - k)) (skipn (Z.to_nat k) a).

(** [s.slice(start, end)] of a string. *)
Definition sliceString (start finish : Z) (s : string) : string :=
  string_of_list_ascii (slice start finish (list_ascii_of_string s)).

Fixpoint trimStart (s : string) : string :=
  match s with
  | EmptyString => EmptyString
  | String c rest => if isWhiteSpace c then trimStart rest else s
  end.

(** [trimEnd], from the right: a white space character is dropped when
    everything after it was dropped. *)
Fixpoint trimEnd (s : string) : string :=
  match s with
  | EmptyString => EmptyString
  | String c rest =>
      match trimEnd rest with
      | EmptyString => if isWhiteSpace c then EmptyString
                       else String c EmptyString
      | kept => String c kept
      end
  end.

(** [s.trim()]. *)
Definition trim (s : string) : string := trimEnd (trimStart s).

(** A string can be pasted between single quotes into JavaScript source
    text, as the query scripts do with [selector] and [searchText], and
    denote itself there, when it has no quote, no backslash and no line
    terminator. *)
Definition quotableChar (c : ascii) : bool :=
  negb ((code c =? 39) || (code c =? 92))%N && negb (isLineTerminator c).

Fixpoint quotable (s : string) : bool :=
  match s with
  | EmptyString => true
  | String c rest => quotableChar c && quotable rest
  end.

(** Completion of a call that may throw. *)
Inductive Exn : Type :=
| Error (message : string)          (* [new Error(message)] of the tool *)
| PageError (reason : string).      (* whatever the page runtime throws *)

Inductive Completion (A : Type) : Type :=
| Normal (a : A)
| Throw (e : Exn).

Arguments Normal {A}.
Arguments Throw {A}.

End JS.

(** ** The fragment of [RegExp] that the search script reaches

  The script builds [new RegExp('\\b' + searchText + '\\b', 'i')]: the search
  text is pattern source.  The fragment has the assertion [\b], the
  wildcard [.] and characters that stand for themselves; a source with any
  other syntax character ([^ $ \ * + ? ( ) [ ] { } |], or a backslash
  before anything but [b]) is outside it, and [parse] answers [None].
  Such a source may be rejected by the [RegExp] constructor, or denote a
  pattern that is not modelled. *)

Module RegExp.

Inductive Atom : Type :=
| WordBoundary
| AnyChar
| Lit (c : ascii).

Definition Pattern : Type := list Atom.

Definition isSyntaxChar (c : ascii) : bool :=
  existsb (fun n => (JS.code c =? n)%N)
    [94; 36; 92; 46; 42; 43; 63; 40; 41; 91; 93; 123; 125; 124]%N.

Fixpoint parse (source : string) : option Pattern :=
  match source with
  | EmptyString => Some []
  | String c rest =>
      if (JS.code c =? 92)%N then
        match rest with
        | String b rest' =>
            if (JS.code b =? 98)%N
            then option_map (cons WordBoundary) (parse rest')
            else None
        | EmptyString => None
        end
      else if (JS.code c =? 46)%N then option_map (cons AnyChar) (parse rest)
      else if isSyntaxChar c then None
      else option_map (cons (Lit c)) (parse rest)
  end.

Definition isWord (c : option ascii) : bool :=
  match c with
  | Some x => JS.isWordChar x
  | None => false
  end.

(** [\b] holds between [prev] and [next] when exactly one of them is a
    word character; the ends of the input count as non-word. *)
Definition atBoundary (prev next : option ascii) : bool :=
  xorb (isWord prev) (isWord next).

(** With the [i] flag two characters match when they agree up to case. *)
Definition sameChar (c d : ascii) : bool :=
  Ascii.eqb (JS.toLowerChar c) (JS.toLowerChar d).

Definition next (input : string) : option ascii :=
  match input with
  | String d _ => Some d
  | EmptyString => None
  end.

(** Match the pattern at the current position; [prev] is the character
    before it. *)
Fixpoint matchHere (p : Pattern) (prev : option ascii) (input : string)
    : bool :=
  match p with
  | [] => true
  | WordBoundary :: p' =>
      atBoundary prev (next input) && matchHere p' prev input
  | AnyChar :: p' =>
      match input with
      | String d rest =>
          negb (JS.isLineTerminator d) && matchHere p' (Some d) rest
      | EmptyString => false
      end
  | Lit c :: p' =>
      match input with
      | String d rest => sameChar c d && matchHere p' (Some d) rest
      | EmptyString => false
      end
  end.

(** Try every start position, left to right. *)
Fixpoint matchFrom (p : Pattern) (prev : option ascii) (input : string)
    : bool :=
  matchHere p prev input
  || match input with
     | String d rest => matchFrom p (Some d) rest
     | EmptyString => false
     end.

(** [new RegExp(source, 'i').test(input)]. *)
Definition test (source input : string) : option bool :=
  option_map (fun p => matchFrom p None input) (parse source).

End RegExp.

(** ** The JavaScript [Map] with string keys

  Entries are kept in insertion order.  [set] on a key that is present
  replaces the value in place (the key keeps its position); on a fresh key
  it appends.  [delete] removes the key. *)

Module JSMap.

Definition t (V : Type) : Type := list (string * V).

Definition empty {V : Type} : t V := [].

Fixpoint get {V : Type} (key : string) (m : t V) : option V :=
  match m with
  | [] => None
  | (k, v) :: rest => if String.eqb k key then Some v else get key rest
  end.

Definition has {V : Type} (key : string) (m : t V) : bool :=
  match get key m with
  | Some _ => true
  | None => false
  end.

Fixpoint replace {V : Type} (key : string) (v : V) (m : t V) : t V :=
  match m with
  | [] => []
  | (k, v') :: rest =>
      if String.eqb k key then (k, v) :: rest
      else (k, v') :: replace key v rest
  end.

Definition set {V : Type} (key : string) (v : V) (m : t V) : t V :=
  if has key m then replace key v m else m ++ [(key, v)].

Definition delete {V : Type} (key : string) (m : t V) : t V :=
  filter (fun kv => negb (String.eqb (fst kv) key)) m.

Definition size {V : Type} (m : t V) : Z := Z.of_nat (List.length m).

Definition keys {V : Type} (m : t V) : list string := map fst m.

(** [keysToDelete.forEach(key => m.delete(key))]. *)
Definition deleteAll {V : Type} (ks : list string) (m : t V) : t V :=
  fold_left (fun acc k => delete k acc) ks m.

End JSMap.

(** ** [src/utils/domCache.ts] *)

Module Params.

(** The [params] argument of [generateKey], [get] and [set]. *)
Record t : Type := mk {
  selector : option string;
  searchText : option string;
  offset : option Z;
  limit : option Z
}.

End Params.

Module DomCache.

Record CacheEntry (Data : Type) : Type := mkEntry {
  data : Data;
  timestamp : Z;
  url : string;
  selector : option string;
  searchText : option string
}.

Arguments mkEntry {Data}.
Arguments data {Data}.
Arguments timestamp {Data}.
Arguments url {Data}.
Arguments selector {Data}.
Arguments searchText {Data}.

Record DOMCache (Data : Type) : Type := mkCache {
  cache : JSMap.t (CacheEntry Data);
  maxAge : Z;
  maxEntries : Z
}.

Arguments mkCache {Data}.
Arguments cache {Data}.
Arguments maxAge {Data}.
Arguments maxEntries {Data}.

(** [this.cache = m], the other fields unchanged. *)
Definition withCache {Data : Type} (this : DOMCache Data)
    (m : JSMap.t (CacheEntry Data)) : DOMCache Data :=
  mkCache m (maxAge this) (maxEntries this).

Definition constructor {Data : Type} (maxAgeSeconds maxEntries : Z)
    : DOMCache Data :=
  mkCache JSMap.empty (maxAgeSeconds * 1000) maxEntries.

Definition generateKey (url : string) (params : Params.t) : string :=
  (url ++ ":" ++ JS.orString (Params.selector params) EmptyString
       ++ ":" ++ JS.orString (Params.searchText params) EmptyString
       ++ ":" ++ JS.numberToString (JS.orNumber (Params.offset params) 0)
       ++ ":" ++ JS.numberToString (JS.orNumber (Params.limit params) 20)
  )%string.

(** [get] reads the clock once, after the entry was found. *)
Definition get {Data : Type} (now : Z) (this : DOMCache Data)
    (url : string) (params : Params.t) : option Data * DOMCache Data :=
  let key := generateKey url params in
  match JSMap.get key (cache this) with
  | None => (None, this)
  | Some entry =>
      if now - timestamp entry >? maxAge this
      then (None, withCache this (JSMap.delete key (cache this)))
      else (Some (data entry), this)
  end.

(** [entry.timestamp < oldestTime], where [None] is [Infinity]. *)
Definition olderThan (ts : Z) (oldestTime : option Z) : bool :=
  match oldestTime with
  | None => true
  | Some t => ts <? t
  end.

(** The [for] loop of [findOldestEntry], with its two local variables. *)
Fixpoint findOldestLoop {Data : Type}
    (entries : list (string * CacheEntry Data))
    (oldestKey : option string) (oldestTime : option Z) : option string :=
  match entries with
  | [] => oldestKey
  | (key, entry) :: rest =>
      if olderThan (timestamp entry) oldestTime
      then findOldestLoop rest (Some key) (Some (timestamp entry))
      else findOldestLoop rest oldestKey oldestTime
  end.

Definition findOldestEntry {Data : Type} (this : DOMCache Data)
    : option string :=
  findOldestLoop (cache this) None None.

(** The eviction step of [set]: [if (oldestKey) this.cache.delete(oldestKey)]. *)
Definition evictOldest {Data : Type} (this : DOMCache Data)
    : JSMap.t (CacheEntry Data) :=
  match findOldestEntry this with
  | Some oldestKey =>
      if JS.truthyString oldestKey
      then JSMap.delete oldestKey (cache this)
      else cache this
  | None => cache this
  end.

Definition set {Data : Type} (now : Z) (this : DOMCache Data)
    (url : string) (params : Params.t) (d : Data) : DOMCache Data :=
  let key := generateKey url params in
  let kept :=
    if (JSMap.size (cache this) >=? maxEntries this)
       && negb (JSMap.has key (cache this))
    then evictOldest this
    else cache this in
  withCache this
    (JSMap.set key
       (mkEntry d now url (Params.selector params) (Params.searchText params))
       kept).

Definition invalidate {Data : Type} (this : DOMCache Data)
    (url : option string) : DOMCache Data :=
  if JS.truthyOptString url then
    let keysToDelete :=
      map fst
        (filter (fun kv => match url with
                           | Some u => String.eqb (DomCache.url (snd kv)) u
                           | None => false
                           end)
                (cache this)) in
    withCache this (JSMap.deleteAll keysToDelete (cache this))
  else withCache this JSMap.empty.

Definition invalidateOlderThan {Data : Type} (now : Z)
    (this : DOMCache Data) (ageSeconds : Z) : DOMCache Data :=
  let maxAge := ageSeconds * 1000 in
  let keysToDelete :=
    map fst
      (filter (fun kv => now - timestamp (snd kv) >? maxAge) (cache this)) in
  withCache this (JSMap.deleteAll keysToDelete (cache this)).

Definition size {Data : Type} (this : DOMCache Data) : Z :=
  JSMap.size (cache this).

(** The global instance: [new DOMCache()], with the default arguments. *)
Definition domCache {Data : Type} : DOMCache Data := constructor 60 100.

End DomCache.

(** ** [src/tools/cache.ts]: the tool [browser_clear_cache] *)

Module ClearCache.

Record Params : Type := mkParams {
  url : option string;
  olderThanSeconds : option Z
}.

(** [handle] returns the lines added to the response and the new state of
    the global cache.  [now] is the clock read of [invalidateOlderThan]. *)
Definition handle {Data : Type} (now : Z) (params : Params)
    (domCache : DomCache.DOMCache Data)
    : list string * DomCache.DOMCache Data :=
  let '(line, domCache') :=
    if JS.truthyOptNumber (olderThanSeconds params) then
      let n := JS.orNumber (olderThanSeconds params) 0 in
      (("Cleared cache entries older than " ++ JS.numberToString n
          ++ " seconds")%string,
       DomCache.invalidateOlderThan now domCache n)
    else if JS.truthyOptString (url params) then
      (("Cleared cache for URL: " ++ JS.orString (url params) EmptyString)%string,
       DomCache.invalidate domCache (url params))
    else
      ("Cleared entire DOM cache", DomCache.invalidate domCache None) in
  ([line;
    ("Current cache size: " ++ JS.numberToString (DomCache.size domCache')
       ++ " entries")%string],
   domCache').

End ClearCache.

(** ** [src/tools/cache.ts]: the tool [browser_query_dom] *)

Module Dom.

(** A child node of an element: a text node with its text, or any other
    node (an element, a comment). *)
Inductive Node : Type :=
| TEXT_NODE (textContent : string)
| OTHER_NODE.

(** [getBoundingClientRect()], in whole pixels. *)
Record DOMRect : Type := mkRect {
  top : Z;
  left : Z;
  width : Z;
  height : Z
}.

Definition bottom (r : DOMRect) : Z := top r + height r.
Definition right (r : DOMRect) : Z := left r + width r.

Record Element : Type := mkElement {
  tagName : string;
  childNodes : list Node;
  attributes : list (string * string);   (* name and value, in DOM order *)
  getBoundingClientRect : DOMRect
}.

(** The document as the search script sees it: the elements that
    [document.querySelectorAll('*')] lists, in document order, the size of
    the window, and the page's clock. *)
Record Document : Type := mkDocument {
  allElements : list Element;
  innerWidth : Z;
  innerHeight : Z;
  now : Z
}.

Fixpoint getAttribute (name : string) (attrs : list (string * string))
    : option string :=
  match attrs with
  | [] => None
  | (n, v) :: rest => if String.eqb n name then Some v else getAttribute name rest
  end.

End Dom.

Module QueryDom.

Import JS.

(** The tool's parameters after the schema filled in its defaults. *)
Record Params : Type := mkParams {
  selector : option string;
  searchText : option string;
  limit : Z;
  offset : Z;
  includeAttributes : bool;
  maxTextLength : Z;
  useCache : bool;
  forceRefresh : bool
}.

Record ElementInfo : Type := mkInfo {
  index : Z;
  tagName : string;
  textContent : string;
  relevanceScore : option Z;
  isVisible : bool;
  position : Dom.DOMRect;
  attributes : option (list (string * string));
  ref : string
}.

(** The value a query script returns; the selector script leaves
    [searchText] out. *)
Module Result.

Record t : Type := mk {
  searchText : option string;
  totalCount : Z;
  offset : Z;
  limit : Z;
  returnedCount : Z;
  hasMore : bool;
  elements : list ElementInfo
}.

End Result.

Definition QueryResult : Type := Result.t.

(** *** The search script, run in the page *)

Record Match : Type := mkMatch {
  element : Dom.Element;
  score : Z;
  text : string
}.

(** The text of the element's own text nodes. *)
Fixpoint directTextOf (nodes : list Dom.Node) : string :=
  match nodes with
  | [] => EmptyString
  | Dom.TEXT_NODE t :: rest => (t ++ directTextOf rest)%string
  | Dom.OTHER_NODE :: rest => directTextOf rest
  end.

(** The [if] of the scan: the direct text or some attribute value contains
    the search text. *)
Definition isMatch (searchText : string) (directText : string)
    (el : Dom.Element) : bool :=
  includes (toLowerCase directText) searchText
  || existsb (fun attr => includes (toLowerCase (snd attr)) searchText)
             (Dom.attributes el).

(** The chain of [if]/[else if] on the direct text.  The pattern is built
    only when the first two tests fail. *)
Definition textScore (searchText directText : string) : option Z :=
  let lowerText := toLowerCase directText in
  if String.eqb lowerText searchText then Some 100
  else if startsWith lowerText searchText then Some 50
  else
    match RegExp.test ("\b" ++ searchText ++ "\b")%string directText with
    | None => None
    | Some true => Some 30
    | Some false => if includes lowerText searchText then Some 10 else Some 0
    end.

Definition visibleBonus (rect : Dom.DOMRect) : Z :=
  if (Dom.width rect >? 0) && (Dom.height rect >? 0) then 5 else 0.

Definition semanticTags : list string :=
  ["h1"; "h2"; "h3"; "h4"; "h5"; "h6"; "button"; "a"; "label"].

Definition semanticBonus (tagName : string) : Z :=
  if existsb (String.eqb tagName) semanticTags then 10 else 0.

(** [score] as pushed with the match. *)
Definition scoreOf (searchText directText : string) (el : Dom.Element)
    : option Z :=
  option_map
    (fun s => s + visibleBonus (Dom.getBoundingClientRect el)
                + semanticBonus (toLowerCase (Dom.tagName el)))
    (textScore searchText directText).

(** The scanning loop over [allElements].  [None]: the pattern of some
    matched element is outside the fragment of [RegExp]. *)
Fixpoint findMatches (searchText : string) (allElements : list Dom.Element)
    : option (list Match) :=
  match allElements with
  | [] => Some []
  | el :: rest =>
      let tagName := toLowerCase (Dom.tagName el) in
      if String.eqb tagName "script" || String.eqb tagName "style"
      then findMatches searchText rest
      else
        let directText := directTextOf (Dom.childNodes el) in
        if isMatch searchText directText el then
          match scoreOf searchText directText el with
          | None => None
          | Some s =>
              option_map (cons (mkMatch el s directText))
                         (findMatches searchText rest)
          end
        else findMatches searchText rest
  end.

(** [matches.sort((a, b) => b.score - a.score)].  [Array.prototype.sort]
    is stable, so the result is the stable arrangement of the matches in
    descending score; insertion from the right computes it: a match moves
    behind the matches of a strictly higher score only. *)
Fixpoint insertMatch (m : Match) (sorted : list Match) : list Match :=
  match sorted with
  | [] => [m]
  | x :: rest =>
      if score m <? score x then x :: insertMatch m rest
      else m :: x :: rest
  end.

Definition sortMatches (matches : list Match) : list Match :=
  fold_right insertMatch [] matches.

Definition isVisibleIn (doc : Dom.Document) (rect : Dom.DOMRect) : bool :=
  (Dom.width rect >? 0) && (Dom.height rect >? 0)
  && (Dom.top rect <? Dom.innerHeight doc) && (Dom.bottom rect >? 0)
  && (Dom.left rect <? Dom.innerWidth doc) && (Dom.right rect >? 0).

(** The callback of [paginatedMatches.map].  The reference is the element's
    [data-mcp-ref] attribute, or a fresh one when it has none; the page's
    clock is taken to show one time during an evaluation.  The script also
    stores a fresh reference on the element: the document of a later
    evaluation is an input of that evaluation. *)
Definition describeMatch (doc : Dom.Document) (offset maxTextLength : Z)
    (includeAttributes : bool) (idx : Z) (m : Match) : ElementInfo :=
  let el := element m in
  let rect := Dom.getBoundingClientRect el in
  mkInfo (offset + idx)
         (toLowerCase (Dom.tagName el))
         (sliceString 0 maxTextLength (trim (text m)))
         (Some (score m))
         (isVisibleIn doc rect)
         rect
         (if includeAttributes then Some (Dom.attributes el) else None)
         (match Dom.getAttribute "data-mcp-ref" (Dom.attributes el) with
          | Some r => r
          | None => ("search-" ++ numberToString (offset + idx) ++ "-"
                       ++ numberToString (Dom.now doc))%string
          end).

(** [a.map((x, idx) => f idx x)], with [idx] counted from [i]. *)
Fixpoint mapFrom {A B : Type} (f : Z -> A -> B) (i : Z) (a : list A)
    : list B :=
  match a with
  | [] => []
  | x :: rest => f i x :: mapFrom f (i + 1) rest
  end.

(** Everything after the scan: sort, paginate, describe. *)
Definition sortAndPaginate (doc : Dom.Document) (rawSearchText : string)
    (offset limit maxTextLength : Z) (includeAttributes : bool)
    (matches : list Match) : QueryResult :=
  let sorted := sortMatches matches in
  let totalCount := Z.of_nat (List.length sorted) in
  let paginatedMatches := slice offset (offset + limit) sorted in
  let results :=
    mapFrom (describeMatch doc offset maxTextLength includeAttributes)
            0 paginatedMatches in
  Result.mk (Some rawSearchText) totalCount offset limit
           (Z.of_nat (List.length results))
           (offset + limit <? totalCount)
           results.

(** The search script as a whole.  [rawSearchText] is [params.searchText];
    the script's own [searchText] is its lower-case form.  [None]: the
    text cannot be quoted into the script, or the scan met a pattern
    outside the fragment. *)
Definition searchScript (doc : Dom.Document) (rawSearchText : string)
    (offset limit maxTextLength : Z) (includeAttributes : bool)
    : option QueryResult :=
  if quotable rawSearchText then
    option_map
      (sortAndPaginate doc rawSearchText offset limit maxTextLength
                       includeAttributes)
      (findMatches (toLowerCase rawSearchText) (Dom.allElements doc))
  else None.

(** *** The handler *)

(** The script handed to [page.evaluate], by the values pasted into it. *)
Inductive Script : Type :=
| SelectorScript (selector : string) (offset limit maxTextLength : Z)
                 (includeAttributes : bool)
| SearchScript (searchText : string) (offset limit maxTextLength : Z)
               (includeAttributes : bool).

(** What [response.addResult] receives: the result object with the
    properties that [Object.assign] adds. *)
Record Response : Type := mkResponse {
  body : QueryResult;
  fromCache : bool;
  cacheTimestamp : option Z
}.

(** The three clock reads of a call: in [domCache.get], for
    [cacheTimestamp], and in [domCache.set]. *)
Record Clock : Type := mkClock {
  atGet : Z;
  atStamp : Z;
  atSet : Z
}.

Definition missingArgument : Exn :=
  Error "Either selector or searchText must be provided".

(** The first three lines of [handle]. *)
Definition limitOf (params : Params) : Z :=
  Z.min (orNumber (Some (limit params)) 20) 100.

Definition offsetOf (params : Params) : Z :=
  orNumber (Some (offset params)) 0.

Definition maxTextLengthOf (params : Params) : Z :=
  orNumber (Some (maxTextLength params)) 500.

(** The object passed to [domCache.get] and [domCache.set]. *)
Definition cacheParams (params : Params) : Params.t :=
  Params.mk (selector params) (searchText params)
            (Some (offsetOf params)) (Some (limitOf params)).

(** The [if]/[else if]/[else] that assigns [javascript]; [None] is the
    [else] branch, which throws. *)
Definition javascript (params : Params) : option Script :=
  if truthyOptString (selector params) then
    Some (SelectorScript (orString (selector params) EmptyString)
                         (offsetOf params) (limitOf params)
                         (maxTextLengthOf params) (includeAttributes params))
  else if truthyOptString (searchText params) then
    Some (SearchScript (orString (searchText params) EmptyString)
                       (offsetOf params) (limitOf params)
                       (maxTextLengthOf params) (includeAttributes params))
  else None.

(** The cache check at the start of [handle]. *)
Definition cacheCheck (currentUrl : string) (clock : Clock) (params : Params)
    (domCache : DomCache.DOMCache QueryResult)
    : option QueryResult * DomCache.DOMCache QueryResult :=
  if useCache params && negb (forceRefresh params)
  then DomCache.get (atGet clock) domCache currentUrl (cacheParams params)
  else (None, domCache).

(** [handle], with its effects explicit: [evaluate] is
    [tab.page.evaluate] of the page runtime, [currentUrl] is
    [tab.page.url()], the cache is the global [domCache]. *)
Definition handle (evaluate : Script -> Completion QueryResult)
    (currentUrl : string) (clock : Clock) (params : Params)
    (domCache : DomCache.DOMCache QueryResult)
    : Completion Response * DomCache.DOMCache QueryResult :=
  let '(cached, domCache1) := cacheCheck currentUrl clock params domCache in
  match cached with
  | Some result =>
      (Normal (mkResponse result true (Some (atStamp clock))), domCache1)
  | None =>
      match javascript params with
      | None => (Throw missingArgument, domCache1)
      | Some js =>
          match evaluate js with
          | Throw e => (Throw e, domCache1)
          | Normal result =>
              (Normal (mkResponse result false None),
               if useCache params
               then DomCache.set (atSet clock) domCache1 currentUrl
                                 (cacheParams params) result
               else domCache1)
          end
      end
  end.

End QueryDom.

(** ** Vocabulary of the properties *)

Module CacheOps.

Import DomCache.

(** A call of a public method of the cache, with its clock read. *)
Inductive Op (Data : Type) : Type :=
| OpGet (now : Z) (url : string) (params : Params.t)
| OpSet (now : Z) (url : string) (params : Params.t) (d : Data)
| OpInvalidate (url : option string)
| OpInvalidateOlderThan (now : Z) (ageSeconds : Z).

Arguments OpGet {Data}.
Arguments OpSet {Data}.
Arguments OpInvalidate {Data}.
Arguments OpInvalidateOlderThan {Data}.

Definition step {Data : Type} (this : DOMCache Data) (op : Op Data)
    : DOMCache Data :=
  match op with
  | OpGet now url params => snd (get now this url params)
  | OpSet now url params d => set now this url params d
  | OpInvalidate url => invalidate this url
  | OpInvalidateOlderThan now ageSeconds => invalidateOlderThan now this ageSeconds
  end.

(** The cache after a sequence of calls, first call first. *)
Definition run {Data : Type} (ops : list (Op Data)) (this : DOMCache Data)
    : DOMCache Data :=
  fold_left step ops this.

(** A [Map] holds each key once. *)
Definition uniqueKeys {Data : Type} (this : DOMCache Data) : Prop :=
  NoDup (JSMap.keys (cache this)).

(** The entry stored by [set]. *)
Definition entryOf {Data : Type} (now : Z) (url : string)
    (params : Params.t) (d : Data) : CacheEntry Data :=
  mkEntry d now url (Params.selector params) (Params.searchText params).

(** Two query shapes used as examples: nothing supplied, and a search for
    a colon. *)
Definition noShape : Params.t := Params.mk None None None None.

Definition colonSearch : Params.t := Params.mk None (Some ":") None None.

(** The global cache after a store for page ["a"] at time [0] and one for
    page ["b"] at time [1]. *)
Definition twoPages : DOMCache Z :=
  set 1 (set 0 domCache "a" noShape 7) "b" noShape 8.

(** The entry is younger than time [t]; the entry is not older than it. *)
Definition strictlyAfter (Data : Type) (t : Z)
    (kv : string * CacheEntry Data) : Prop :=
  t < timestamp (snd kv).

Definition notBefore (Data : Type) (t : Z)
    (kv : string * CacheEntry Data) : Prop :=
  t <= timestamp (snd kv).

(** What the operations maintain: unique keys, no empty key, and the
    bound on the size. *)
Definition keysTruthy {Data : Type} (this : DOMCache Data) : Prop :=
  Forall (fun k => JS.truthyString k = true) (JSMap.keys (cache this)).

Definition bounded {Data : Type} (this : DOMCache Data) : Prop :=
  uniqueKeys this /\ keysTruthy this /\ size this <= maxEntries this.

End CacheOps.

Module SearchSpec.

Import JS QueryDom.




(** The direct text of the match is the search text, up to case. *)
Definition isExact (searchText : string) (m : Match) : bool :=
  String.eqb (toLowerCase (text m)) searchText.


(** A search text without pattern syntax: each character stands for
    itself. *)
Fixpoint plain (searchText : string) : bool :=
  match searchText with
  | EmptyString => true
  | String c rest => negb (RegExp.isSyntaxChar c) && plain rest
  end.

Fixpoint literals (searchText : string) : RegExp.Pattern :=
  match searchText with
  | EmptyString => []
  | String c rest => RegExp.Lit c :: literals rest
  end.

(** The two bonuses of an element. *)
Definition bonuses (el : Dom.Element) : Z :=
  (if (Dom.width (Dom.getBoundingClientRect el) >? 0)
      && (Dom.height (Dom.getBoundingClientRect el) >? 0)
   then 5 else 0)
  + (if existsb (String.eqb (toLowerCase (Dom.tagName el)))
                ["h1"; "h2"; "h3"; "h4"; "h5"; "h6"; "button"; "a"; "label"]
     then 10 else 0).


(** The tier that the chain of tests on the direct text assigns when the
    search text is matched as it is written. *)
Definition tierOf (searchText directText : string) : Z :=
  let lowerText := toLowerCase directText in
  if String.eqb lowerText searchText then 100
  else if startsWith lowerText searchText then 50
  else if RegExp.matchFrom
            (RegExp.WordBoundary :: literals searchText
               ++ [RegExp.WordBoundary]) None directText
       then 30
  else if includes lowerText searchText then 10
  else 0.

End SearchSpec.

(** ** Documents of the examples *)

Module Scenario.

(** An element with one text node, its attributes, and a box of the given
    width and height at the origin. *)
Definition element (tagName text : string)
    (attributes : list (string * string)) (width height : Z) : Dom.Element :=
  Dom.mkElement tagName [Dom.TEXT_NODE text] attributes
                (Dom.mkRect 0 0 width height).

Definition submitButton : Dom.Element := element "BUTTON" "Submit" [] 0 0.

Definition paragraph : Dom.Element :=
  element "H1" "Please submit the form" [] 300 20.

Definition window (allElements : list Dom.Element) : Dom.Document :=
  Dom.mkDocument allElements 1024 768 1700000000000.

Definition exactFirst : Dom.Document := window [submitButton; paragraph].

Definition exactLast : Dom.Document := window [paragraph; submitButton].

(** A paragraph with the text [abc] and the title [a.c]. *)
Definition titled : Dom.Element :=
  element "P" "abc" [("title", "a.c")] 40 12.

(** A page on which a search for a colon finds one paragraph. *)
Definition colonPage : Dom.Document :=
  window [element "P" "Note: read this" [] 200 16].

(** A page runtime that runs the search script on [doc], and rejects
    every other script. *)
Definition evaluateOn (doc : Dom.Document) (js : QueryDom.Script)
    : JS.Completion QueryDom.QueryResult :=
  match js with
  | QueryDom.SearchScript searchText offset limit maxTextLength includeAttributes =>
      match QueryDom.searchScript doc searchText offset limit maxTextLength
                                  includeAttributes with
      | Some result => JS.Normal result
      | None => JS.Throw (JS.PageError "SyntaxError")
      end
  | QueryDom.SelectorScript _ _ _ _ _ =>
      JS.Throw (JS.PageError "SyntaxError")
  end.

(** A runtime on which every evaluation fails. *)
Definition detached (js : QueryDom.Script)
    : JS.Completion QueryDom.QueryResult :=
  JS.Throw (JS.PageError "Execution context was destroyed").

Definition defaults (selector searchText : option string) : QueryDom.Params :=
  QueryDom.mkParams selector searchText 20 0 true 500 true false.

(** A search for a colon on the page [http://h/p], with an empty cache. *)
Definition firstCall
    : JS.Completion QueryDom.Response * DomCache.DOMCache QueryDom.QueryResult :=
  QueryDom.handle (evaluateOn colonPage) "http://h/p"
                  (QueryDom.mkClock 0 0 1000) (defaults None (Some ":"))
                  DomCache.domCache.

(** Two seconds later, on the page [http://h/p:], a call with neither a
    selector nor a search text. *)
Definition secondCall
    : JS.Completion QueryDom.Response * DomCache.DOMCache QueryDom.QueryResult :=
  QueryDom.handle (evaluateOn colonPage) "http://h/p:"
                  (QueryDom.mkClock 2000 2000 2000) (defaults None None)
                  (snd firstCall).

(** A hundred seconds after the first call, the same search on the same
    page, when the page no longer evaluates scripts. *)
Definition lateCall
    : JS.Completion QueryDom.Response * DomCache.DOMCache QueryDom.QueryResult :=
  QueryDom.handle detached "http://h/p"
                  (QueryDom.mkClock 100000 100000 100000)
                  (defaults None (Some ":")) (snd firstCall).

End Scenario.

(** ** [src/tools/cache.ts]: the tool [browser_cache_status] *)

Module CacheStatus.

(** [handle] adds one line to the response and reads no clock. *)
Definition handle {Data : Type} (domCache : DomCache.DOMCache Data)
    : list string :=
  [("DOM cache size: " ++ JS.numberToString (DomCache.size domCache)
      ++ " entries")%string].

End CacheStatus.

(** ** [browser_query_dom]: the selector script, run in the page

  [elements] is the list that [document.querySelectorAll(selector)]
  answered; the selector engine itself is the page's.  [textContent] gives
  the text of an element with that of its descendants, which the page
  computes from the tree. *)

Module SelectorScript.

Import JS QueryDom.

(** [elements[i]]: [undefined] outside the list. *)
Definition item (elements : list Dom.Element) (i : Z) : option Dom.Element :=
  if i <? 0 then None else nth_error elements (Z.to_nat i).

(** The object built in the body of the loop for [elements[i]]. *)
Definition describeElement (textContent : Dom.Element -> string)
    (doc : Dom.Document) (maxTextLength : Z) (includeAttributes : bool)
    (i : Z) (el : Dom.Element) : ElementInfo :=
  let rect := Dom.getBoundingClientRect el in
  mkInfo i
         (toLowerCase (Dom.tagName el))
         (sliceString 0 maxTextLength (trim (textContent el)))
         None
         (isVisibleIn doc rect)
         rect
         (if includeAttributes then Some (Dom.attributes el) else None)
         (match Dom.getAttribute "data-mcp-ref" (Dom.attributes el) with
          | Some r => r
          | None => ("query-" ++ numberToString i ++ "-"
                       ++ numberToString (Dom.now doc))%string
          end).

(** Reading a property of [undefined]. *)
Definition typeError : Exn := PageError "TypeError".

(** The [for] loop, [n] iterations from index [i]: the body throws when
    [elements[i]] is [undefined]. *)
Fixpoint loop (textContent : Dom.Element -> string) (doc : Dom.Document)
    (maxTextLength : Z) (includeAttributes : bool)
    (elements : list Dom.Element) (n : nat) (i : Z)
    (results : list ElementInfo) : Completion (list ElementInfo) :=
  match n with
  | O => Normal results
  | S n' =>
      match item elements i with
      | None => Throw typeError
      | Some el =>
          loop textContent doc maxTextLength includeAttributes elements n'
               (i + 1)
               (results
                  ++ [describeElement textContent doc maxTextLength
                                      includeAttributes i el])
      end
  end.

(** The script: the loop runs for [i] from [offset] while
    [i < Math.min(elements.length, offset + limit)]. *)
Definition run (textContent : Dom.Element -> string) (doc : Dom.Document)
    (elements : list Dom.Element) (offset limit maxTextLength : Z)
    (includeAttributes : bool) : Completion QueryResult :=
  let totalCount := Z.of_nat (List.length elements) in
  let bound := Z.min totalCount (offset + limit) in
  match loop textContent doc maxTextLength includeAttributes elements
             (Z.to_nat (bound - offset)) offset [] with
  | Throw e => Throw e
  | Normal results =>
      Normal (Result.mk None totalCount offset limit
                        (Z.of_nat (List.length results))
                        (offset + limit <? totalCount)
                        results)
  end.

End SelectorScript.

(** ** Further vocabulary *)

Module Extra.

Import JS DomCache CacheOps QueryDom.

(** The string has no colon, the delimiter of the cache key. *)
Fixpoint colonFree (s : string) : bool :=
  match s with
  | EmptyString => true
  | String c rest => negb (code c =? 58)%N && colonFree rest
  end.

(** The four components of a key, after the defaults of [generateKey]. *)
Definition components (params : Params.t) : string * string * Z * Z :=
  (orString (Params.selector params) EmptyString,
   orString (Params.searchText params) EmptyString,
   orNumber (Params.offset params) 0,
   orNumber (Params.limit params) 20).

(** The entry is older than [ageSeconds] at time [now], as
    [invalidateOlderThan] tests it. *)
Definition olderThanSeconds {Data : Type} (now ageSeconds : Z)
    (kv : string * CacheEntry Data) : bool :=
  now - timestamp (snd kv) >? ageSeconds * 1000.

(** Unique keys, none of them empty. *)
Definition wellKeyed {Data : Type} (this : DOMCache Data) : Prop :=
  uniqueKeys this /\ keysTruthy this.

(** The indices of the list are [i], [i + 1], and so on. *)
Fixpoint countsFrom (i : Z) (infos : list ElementInfo) : Prop :=
  match infos with
  | [] => True
  | info :: rest => index info = i /\ countsFrom (i + 1) rest
  end.

(** Twenty-five list items, and a page runtime that answers the selector
    script on them. *)
Definition listItems : list Dom.Element :=
  repeat (Scenario.element "LI" "item" [] 100 20) 25.

Definition noText (el : Dom.Element) : string := EmptyString.

(** The cache after the first call of the scenario, and the result that
    the search for a colon evaluates to on its page. *)
Definition afterFirstCall : DOMCache QueryResult := snd Scenario.firstCall.

Definition colonInfo : ElementInfo :=
  mkInfo 0 "p" "Note: read this" (Some 15) true
         (Dom.mkRect 0 0 200 16) (Some []) "search-0-1700000000000".

Definition colonResult : QueryResult :=
  Result.mk (Some ":") 1 0 20 1 false [colonInfo].

End Extra.

(** ** Calls between a store and a read *)

Module Between.

Import DomCache CacheOps.

(** A call that is neither a store under the key nor an invalidation: a
    read, or a store under another key. *)
Definition onOtherKey {Data : Type} (key : string) (op : Op Data) : Prop :=
  match op with
  | OpGet _ _ _ => True
  | OpSet _ url params _ => generateKey url params <> key
  | OpInvalidate _ => False
  | OpInvalidateOlderThan _ _ => False
  end.

(** The call leaves alone the entry that was stored under [key] at time
    [T] for the page [page], in the cache [this]:
    - a read under another key, or one that does not find the entry
      expired;
    - a store under another key that does not evict the entry: that key is
      present, or the store is below capacity, or the oldest entry is
      another one;
    - an invalidation of another page, named by a non-empty string;
    - a sweep whose threshold the age of the entry does not exceed. *)
Definition spares {Data : Type} (key : string) (T : Z) (page : string)
    (this : DOMCache Data) (op : Op Data) : Prop :=
  match op with
  | OpGet now url params =>
      generateKey url params <> key \/ now - T <= maxAge this
  | OpSet _ url params _ =>
      generateKey url params <> key
      /\ (JSMap.has (generateKey url params) (cache this) = true
          \/ size this < maxEntries this
          \/ findOldestEntry this <> Some key)
  | OpInvalidate url =>
      exists other, url = Some other /\ other <> EmptyString /\ other <> page
  | OpInvalidateOlderThan now ageSeconds => now - T <= ageSeconds * 1000
  end.

(** Every call of the sequence spares the entry, in the cache it is made
    on. *)
Fixpoint undisturbed {Data : Type} (key : string) (T : Z) (page : string)
    (ops : list (Op Data)) (this : DOMCache Data) : Prop :=
  match ops with
  | [] => True
  | op :: rest =>
      spares key T page this op
      /\ undisturbed key T page rest (step this op)
  end.

End Between.

(** ** The search script for any answer of [RegExp]

  [RegExp] is a built-in of the page: the scan below is the scan of the
  script with the answer of [new RegExp(source, 'i').test(input)] taken
  from a function [test], where [None] stands for a throw.  With
  [RegExp.test] of the fragment it is [QueryDom.findMatches]. *)

Module SearchWith.

Import JS QueryDom.

Section Oracle.

Variable test : string -> string -> option bool.






End Oracle.




End SearchWith.

(** ** A page with three matches *)

Module ThreeMatches.

Import JS QueryDom.

Definition label : Dom.Element :=
  Scenario.element "LABEL" "Submit now" [] 80 16.

(** A heading, the exact button and a label: a search for [submit]
    matches all three, with the scores [45], [110] and [65]. *)
Definition page : Dom.Document :=
  Scenario.window [Scenario.paragraph; Scenario.submitButton; label].

Definition matches : list Match :=
  match findMatches "submit" (Dom.allElements page) with
  | Some ms => ms
  | None => []
  end.


Definition allButLast : Params :=
  mkParams None (Some "submit") (-1) 0 false 6 true false.

(** The results of the script for these two calls. *)
Definition pageOf (params : Params) : QueryResult :=
  sortAndPaginate page "submit" (offsetOf params) (limitOf params)
                  (maxTextLengthOf params) (includeAttributes params) matches.

End ThreeMatches.

(** * Properties *)

(** Split a goal into its conjuncts, and nothing else. *)
Ltac conj_split := repeat match goal with |- _ /\ _ => split end.

(** ** The [Map] operations *)

Section MapFacts.

Context {V : Type}.
Implicit Types (m : JSMap.t V) (k key : string) (v : V).

Lemma map_has_false key m :
  JSMap.has key m = false <-> JSMap.get key m = None.
Proof.
  unfold JSMap.has. destruct (JSMap.get key m); split; congruence.
Qed.

Lemma map_get_keys key m :
  JSMap.get key m = None <-> ~ In key (JSMap.keys m).
Proof.
  induction m as [|[k w] m IH]; simpl.
  - tauto.
  - destruct (String.eqb_spec k key) as [->|Hne].
    + split; [discriminate | intros H; exfalso; apply H; now left].
    + rewrite IH. tauto.
Qed.

Lemma map_get_replace_eq key v m :
  JSMap.has key m = true -> JSMap.get key (JSMap.replace key v m) = Some v.
Proof.
  unfold JSMap.has.
  induction m as [|[k w] m IH]; simpl; [discriminate|].
  destruct (String.eqb_spec k key) as [->|Hne]; simpl.
  - now rewrite String.eqb_refl.
  - destruct (String.eqb_spec k key); [contradiction | exact IH].
Qed.

Lemma map_get_replace_ne key k v m :
  k <> key -> JSMap.get k (JSMap.replace key v m) = JSMap.get k m.
Proof.
  intros Hne. induction m as [|[k' w] m IH]; simpl; [reflexivity|].
  destruct (String.eqb_spec k' key) as [->|Hk]; simpl.
  - destruct (String.eqb_spec key k); [congruence | reflexivity].
  - now rewrite IH.
Qed.

Lemma map_get_app key m m' :
  JSMap.get key (m ++ m') =
  match JSMap.get key m with
  | Some v => Some v
  | None => JSMap.get key m'
  end.
Proof.
  induction m as [|[k w] m IH]; simpl; [reflexivity|].
  now destruct (String.eqb k key).
Qed.

Lemma map_get_set_eq key v m : JSMap.get key (JSMap.set key v m) = Some v.
Proof.
  unfold JSMap.set. destruct (JSMap.has key m) eqn:Hhas.
  - now apply map_get_replace_eq.
  - apply map_has_false in Hhas. rewrite map_get_app, Hhas. simpl.
    now rewrite String.eqb_refl.
Qed.

Lemma map_get_delete_eq key m : JSMap.get key (JSMap.delete key m) = None.
Proof.
  induction m as [|[k w] m IH]; simpl; [reflexivity|].
  destruct (String.eqb_spec k key) as [->|Hne]; simpl; [exact IH|].
  destruct (String.eqb_spec k key); [contradiction | exact IH].
Qed.

Lemma map_get_delete_ne key k m :
  k <> key -> JSMap.get k (JSMap.delete key m) = JSMap.get k m.
Proof.
  intros Hne. induction m as [|[k' w] m IH]; simpl; [reflexivity|].
  destruct (String.eqb_spec k' key) as [->|Hk]; simpl.
  - rewrite IH. destruct (String.eqb_spec key k); [congruence | reflexivity].
  - now rewrite IH.
Qed.

Lemma map_keys_replace key v m : JSMap.keys (JSMap.replace key v m) = JSMap.keys m.
Proof.
  induction m as [|[k w] m IH]; simpl; [reflexivity|].
  destruct (String.eqb k key); simpl; [reflexivity | now rewrite IH].
Qed.

Lemma map_keys_delete key m :
  JSMap.keys (JSMap.delete key m) =
  filter (fun k => negb (String.eqb k key)) (JSMap.keys m).
Proof.
  induction m as [|[k w] m IH]; simpl; [reflexivity|].
  destruct (String.eqb k key); simpl; [exact IH | now rewrite IH].
Qed.

Lemma map_delete_absent key m :
  JSMap.get key m = None -> JSMap.delete key m = m.
Proof.
  induction m as [|[k w] m IH]; simpl; [reflexivity|].
  destruct (String.eqb_spec k key) as [->|Hne]; [discriminate|].
  intros H. simpl. now rewrite IH.
Qed.

(** Deleting a key of a duplicate-free map removes the one entry that has
    it and keeps the order of the others. *)
Lemma map_delete_split key v pre post :
  NoDup (JSMap.keys (pre ++ (key, v) :: post)) ->
  JSMap.delete key (pre ++ (key, v) :: post) = pre ++ post.
Proof.
  unfold JSMap.keys. rewrite map_app. simpl. intros Hnd.
  apply NoDup_remove_2 in Hnd.
  unfold JSMap.delete. rewrite filter_app. simpl.
  rewrite String.eqb_refl. simpl.
  assert (Hkeep : forall l : JSMap.t V, ~ In key (map fst l) ->
            filter (fun kv => negb (String.eqb (fst kv) key)) l = l).
  { intros l Hl. apply map_delete_absent. now apply map_get_keys. }
  rewrite !Hkeep; [reflexivity | |]; intros Hin; apply Hnd, in_or_app; tauto.
Qed.

Lemma map_NoDup_delete key m :
  NoDup (JSMap.keys m) -> NoDup (JSMap.keys (JSMap.delete key m)).
Proof. intros H. rewrite map_keys_delete. now apply NoDup_filter. Qed.

Lemma map_NoDup_set key v m :
  NoDup (JSMap.keys m) -> NoDup (JSMap.keys (JSMap.set key v m)).
Proof.
  intros H. unfold JSMap.set. destruct (JSMap.has key m) eqn:Hhas.
  - now rewrite map_keys_replace.
  - apply map_has_false, map_get_keys in Hhas.
    unfold JSMap.keys in *. rewrite map_app. simpl.
    apply NoDup_app; [exact H | repeat constructor; simpl; tauto |].
    intros k Hk [<-|[]]. contradiction.
Qed.

Lemma map_length_delete_le key m :
  (List.length (JSMap.delete key m) <= List.length m)%nat.
Proof. apply filter_length_le. Qed.

End MapFacts.

(** ** [DOMCache]: lookup after store, expiration *)

Section CacheFacts.

Import DomCache CacheOps.
Context {Data : Type}.
Implicit Types (this : DOMCache Data) (params : Params.t) (d : Data).

Lemma cache_set_lookup this url params d now :
  JSMap.get (generateKey url params) (cache (set now this url params d))
  = Some (entryOf now url params d).
Proof. unfold set. simpl. apply map_get_set_eq. Qed.

Lemma get_fresh this url params entry now :
  JSMap.get (generateKey url params) (cache this) = Some entry ->
  now - timestamp entry <= maxAge this ->
  get now this url params = (Some (data entry), this).
Proof.
  intros Hget Hage. unfold get. rewrite Hget.
  destruct (Z.gtb_spec (now - timestamp entry) (maxAge this)); [lia | reflexivity].
Qed.

Lemma get_expired this url params entry now :
  JSMap.get (generateKey url params) (cache this) = Some entry ->
  now - timestamp entry > maxAge this ->
  get now this url params
  = (None, withCache this (JSMap.delete (generateKey url params) (cache this))).
Proof.
  intros Hget Hage. unfold get. rewrite Hget.
  destruct (Z.gtb_spec (now - timestamp entry) (maxAge this)); [reflexivity | lia].
Qed.

(** A lookup finds what was stored under any shape that has the same key. *)
Lemma get_after_set_key this url params d tSet tGet url' params' :
  generateKey url' params' = generateKey url params ->
  tGet - tSet <= maxAge this ->
  get tGet (set tSet this url params d) url' params'
  = (Some d, set tSet this url params d).
Proof.
  intros Hkey Hage.
  apply (get_fresh _ url' params' (entryOf tSet url params d)).
  - rewrite Hkey. apply cache_set_lookup.
  - simpl. exact Hage.
Qed.

Lemma maxAge_step this (op : Op Data) : maxAge (step this op) = maxAge this.
Proof.
  destruct op as [now url params|now url params d|url|now age]; simpl;
    try reflexivity.
  - unfold get. destruct (JSMap.get _ _); [|reflexivity].
    now destruct (_ >? _).
  - unfold invalidate. now destruct (JS.truthyOptString url).
Qed.

Lemma maxAge_run (ops : list (Op Data)) : forall this,
  maxAge (run ops this) = maxAge this.
Proof.
  induction ops as [|op ops IH]; intros this; [reflexivity|].
  change (run (op :: ops) this) with (run ops (step this op)).
  now rewrite IH, maxAge_step.
Qed.

(** C2.  For an entry cached under the key of [url] and [params]: a [get]
    at an age strictly greater than [maxAge] returns absent and deletes
    the entry (its key is gone, every other key is as before); a [get] at an
    age strictly less than [maxAge] returns the stored payload and changes
    nothing.  In particular an entry inserted at time [T] is returned at
    [T + maxAge - 1] and is absent, and removed, at [T + maxAge + 1]. *)
Theorem lazy_expiration :
  (forall this url params entry now,
      JSMap.get (generateKey url params) (cache this) = Some entry ->
      (now - timestamp entry > maxAge this ->
       fst (get now this url params) = None
       /\ JSMap.get (generateKey url params)
            (cache (snd (get now this url params))) = None
       /\ forall k, k <> generateKey url params ->
            JSMap.get k (cache (snd (get now this url params)))
            = JSMap.get k (cache this))
      /\ (now - timestamp entry < maxAge this ->
          get now this url params = (Some (data entry), this)))
  /\ (forall this url params d T,
         let stored := set T this url params d in
         fst (get (T + maxAge this - 1) stored url params) = Some d
         /\ fst (get (T + maxAge this + 1) stored url params) = None
         /\ JSMap.get (generateKey url params)
              (cache (snd (get (T + maxAge this + 1) stored url params)))
            = None).
Proof.
  split.
  - intros this url params entry now Hget. split.
    + intros Hage. rewrite (get_expired _ _ _ _ _ Hget Hage). simpl.
      split; [reflexivity|]. split.
      * apply map_get_delete_eq.
      * intros k Hk. now apply map_get_delete_ne.
    + intros Hage. apply (get_fresh _ _ _ _ _ Hget). lia.
  - intros this url params d T stored.
    pose proof (cache_set_lookup this url params d T) as Hget.
    fold stored in Hget. split; [|split].
    + rewrite (get_fresh _ _ _ _ _ Hget); [reflexivity|].
      subst stored. simpl. lia.
    + rewrite (get_expired _ _ _ _ _ Hget); [reflexivity|].
      subst stored. simpl. lia.
    + rewrite (get_expired _ _ _ _ _ Hget); [|subst stored; simpl; lia].
      simpl. apply map_get_delete_eq.
Qed.

End CacheFacts.

(** ** [DOMCache]: the key is not injective *)

Section KeyFacts.

Import DomCache CacheOps.

(** C9.  [generateKey] is not injective.  A page identity ["a:"] with no
    selector and no search text has the key of the page identity ["a"]
    with the search text [":"]; a limit of [0] has the key of the limit
    [20], whatever the other components are.  Hence a [get] under one
    shape returns the payload that was stored under another. *)
Theorem generateKey_not_injective :
  ("a:", noShape) <> ("a", colonSearch)
  /\ generateKey "a:" noShape = generateKey "a" colonSearch
  /\ (forall url selector searchText offset,
         Params.mk selector searchText offset (Some 0)
         <> Params.mk selector searchText offset (Some 20)
         /\ generateKey url (Params.mk selector searchText offset (Some 0))
            = generateKey url (Params.mk selector searchText offset (Some 20)))
  /\ (forall (Data : Type) (d : Data) (now : Z),
         fst (get now (set now domCache "a" colonSearch d) "a:" noShape)
         = Some d)
  /\ (forall (Data : Type) (d : Data) (now : Z) url selector searchText offset,
         fst (get now
                (set now domCache url
                   (Params.mk selector searchText offset (Some 0)) d)
                url (Params.mk selector searchText offset (Some 20)))
         = Some d).
Proof.
  split; [discriminate|].
  split; [reflexivity|].
  split; [intros; split; [discriminate | reflexivity]|].
  split.
  - intros Data d now.
    rewrite (get_after_set_key _ "a" colonSearch); simpl; [reflexivity | reflexivity | lia].
  - intros Data d now url selector searchText offset.
    rewrite (get_after_set_key _ url
               (Params.mk selector searchText offset (Some 0)));
      simpl; [reflexivity | reflexivity | lia].
Qed.

End KeyFacts.

(** ** [DOMCache]: invalidation *)

Section InvalidateFacts.

Import DomCache CacheOps.
Context {Data : Type}.
Implicit Types (this : DOMCache Data) (m : JSMap.t (CacheEntry Data)).

Lemma filter_twice {A : Type} (f g : A -> bool) (l : list A) :
  filter f (filter g l) = filter (fun x => g x && f x) l.
Proof.
  induction l as [|x l IH]; simpl; [reflexivity|].
  destruct (g x); simpl; [destruct (f x)|]; now rewrite IH.
Qed.

(** Deleting a list of keys keeps, in order, the entries under other keys. *)
Lemma deleteAll_filter ks m :
  JSMap.deleteAll ks m
  = filter (fun kv => negb (existsb (String.eqb (fst kv)) ks)) m.
Proof.
  revert m. induction ks as [|k ks IH]; intros m; simpl.
  - induction m as [|kv m IHm]; simpl; [reflexivity | now rewrite <- IHm].
  - rewrite IH. unfold JSMap.delete. rewrite filter_twice.
    apply filter_ext. intros [k' e]. simpl.
    destruct (String.eqb k' k); reflexivity.
Qed.

Lemma uniqueKeys_value m k (e e' : CacheEntry Data) :
  NoDup (JSMap.keys m) -> In (k, e) m -> In (k, e') m -> e = e'.
Proof.
  induction m as [|[k0 e0] m IH]; simpl; [tauto|].
  intros Hnd [H1|H1] [H2|H2].
  - congruence.
  - inversion H1; subst. inversion Hnd as [|? ? Hnotin _]; subst.
    exfalso. apply Hnotin. apply (in_map fst) in H2. exact H2.
  - inversion H2; subst. inversion Hnd as [|? ? Hnotin _]; subst.
    exfalso. apply Hnotin. apply (in_map fst) in H1. exact H1.
  - inversion Hnd; subst. now apply IH.
Qed.

(** The keys collected by a scan for a property [p] of the entries are,
    in a map with unique keys, the keys of the entries that have [p]. *)
Lemma collected_keys m (p : CacheEntry Data -> bool) k e :
  NoDup (JSMap.keys m) -> In (k, e) m ->
  existsb (String.eqb k) (map fst (filter (fun kv => p (snd kv)) m)) = p e.
Proof.
  intros Hnd Hin. destruct (p e) eqn:Hp.
  - apply existsb_exists. exists k. split; [|apply String.eqb_refl].
    apply (in_map fst _ (k, e)). apply filter_In. now split.
  - apply not_true_is_false. intros Hex.
    apply existsb_exists in Hex. destruct Hex as (k' & Hk' & Heq).
    apply String.eqb_eq in Heq. subst k'.
    apply in_map_iff in Hk'. destruct Hk' as ([k' e'] & Hfst & Hin').
    simpl in Hfst. subst k'. apply filter_In in Hin'.
    destruct Hin' as [Hin' Hp']. simpl in Hp'.
    assert (e = e') by (eapply uniqueKeys_value; eauto). congruence.
Qed.

Lemma deleteAll_collected m (p : CacheEntry Data -> bool) :
  NoDup (JSMap.keys m) ->
  JSMap.deleteAll (map fst (filter (fun kv => p (snd kv)) m)) m
  = filter (fun kv => negb (p (snd kv))) m.
Proof.
  intros Hnd. rewrite deleteAll_filter. apply filter_ext_in.
  intros [k e] Hin. simpl. f_equal. now apply collected_keys.
Qed.

Lemma invalidate_url this u :
  u <> EmptyString ->
  invalidate this (Some u)
  = withCache this
      (JSMap.deleteAll
         (map fst (filter (fun kv => String.eqb (url (snd kv)) u) (cache this)))
         (cache this)).
Proof.
  intros Hu. unfold invalidate. simpl.
  destruct u; [contradiction | reflexivity].
Qed.

Lemma get_filter_keep m (p : CacheEntry Data -> bool) k e :
  NoDup (JSMap.keys m) -> JSMap.get k m = Some e ->
  JSMap.get k (filter (fun kv => p (snd kv)) m)
  = if p e then Some e else None.
Proof.
  induction m as [|[k0 e0] m IH]; simpl; [discriminate|].
  intros Hnd. inversion Hnd as [|? ? Hnotin Hnd']; subst.
  destruct (String.eqb_spec k0 k) as [->|Hne].
  - intros [= ->]. destruct (p e) eqn:Hp; simpl.
    + now rewrite String.eqb_refl.
    + apply map_get_keys. intros Hin. apply Hnotin.
      unfold JSMap.keys in Hin. apply in_map_iff in Hin.
      destruct Hin as (kv & Hfst & Hin). apply filter_In in Hin.
      rewrite <- Hfst. apply in_map. tauto.
  - intros Hget. destruct (p e0); simpl.
    + destruct (String.eqb_spec k0 k); [contradiction | now apply IH].
    + now apply IH.
Qed.

(** C8, as the code has it.  For a cache with unique keys and a non-empty
    [u], [invalidate(u)] removes exactly the entries whose stored [url] is
    [u]: the store afterwards is the store before without them; a lookup
    of a removed entry's key is absent, also through [get]; every entry
    with another [url] is found unchanged, and [get] answers for it as
    before.  [invalidate()] empties the store: [size()] is [0], and a
    second call changes nothing.  An empty string as argument is treated
    as no argument.  The limits are untouched, and each of the calls
    returns. *)
Theorem invalidate_scoped :
  (forall this u,
      uniqueKeys this -> u <> EmptyString ->
      let after := invalidate this (Some u) in
      cache after
      = filter (fun kv => negb (String.eqb (url (snd kv)) u)) (cache this)
      /\ (forall k e, JSMap.get k (cache this) = Some e -> url e = u ->
            JSMap.get k (cache after) = None)
      /\ (forall now url' params e,
            JSMap.get (generateKey url' params) (cache this) = Some e ->
            url e = u -> fst (get now after url' params) = None)
      /\ (forall k e, JSMap.get k (cache this) = Some e -> url e <> u ->
            JSMap.get k (cache after) = Some e)
      /\ (forall now url' params e,
            JSMap.get (generateKey url' params) (cache this) = Some e ->
            url e <> u ->
            fst (get now after url' params) = fst (get now this url' params))
      /\ maxAge after = maxAge this /\ maxEntries after = maxEntries this)
  /\ (forall this,
         cache (invalidate this None) = []
         /\ size (invalidate this None) = 0
         /\ invalidate (invalidate this None) None = invalidate this None)
  /\ (forall this, invalidate this (Some EmptyString) = invalidate this None).
Proof.
  split; [|split; [intros this; repeat split | reflexivity]].
  intros this u Hnd Hu after.
  assert (Hcache : cache after
            = filter (fun kv => negb (String.eqb (url (snd kv)) u)) (cache this)).
  { subst after. rewrite (invalidate_url _ _ Hu). simpl.
    now apply (deleteAll_collected _ (fun e => String.eqb (url e) u)). }
  assert (Hgone : forall k e, JSMap.get k (cache this) = Some e -> url e = u ->
            JSMap.get k (cache after) = None).
  { intros k e Hget Hurl. rewrite Hcache.
    rewrite (get_filter_keep _ (fun e => negb (String.eqb (url e) u)) k e Hnd Hget).
    rewrite Hurl, String.eqb_refl. reflexivity. }
  assert (Hkept : forall k e, JSMap.get k (cache this) = Some e -> url e <> u ->
            JSMap.get k (cache after) = Some e).
  { intros k e Hget Hurl. rewrite Hcache.
    rewrite (get_filter_keep _ (fun e => negb (String.eqb (url e) u)) k e Hnd Hget).
    destruct (String.eqb_spec (url e) u); [contradiction | reflexivity]. }
  assert (Hage : maxAge after = maxAge this).
  { subst after. now rewrite (invalidate_url _ _ Hu). }
  repeat split.
  - exact Hcache.
  - exact Hgone.
  - intros now url' params e Hget Hurl. unfold get.
    now rewrite (Hgone _ _ Hget Hurl).
  - exact Hkept.
  - intros now url' params e Hget Hurl. unfold get.
    rewrite (Hkept _ _ Hget Hurl), Hget, Hage.
    now destruct (now - timestamp e >? maxAge this).
  - exact Hage.
  - subst after. now rewrite (invalidate_url _ _ Hu).
Qed.

End InvalidateFacts.

(** ** Concrete caches for the examples *)

Section Examples.

Import DomCache CacheOps.

Lemma twoPages_unique : uniqueKeys twoPages.
Proof.
  unfold uniqueKeys. simpl.
  repeat constructor; simpl; intuition discriminate.
Qed.

(** Reads under another key in between do not disturb the entry. *)
Example get_after_set_and_reads :
  get 59999
      (run [OpGet 10 "b" noShape; OpGet 20 "a" colonSearch]
           (set 0 domCache "a" noShape 7))
      "a" noShape
  = (Some 7, set 0 domCache "a" noShape 7).
Proof. reflexivity. Qed.

Lemma lazy_expiration_witness :
  fst (get 60002 twoPages "b" noShape) = None
  /\ get 60000 twoPages "b" noShape = (Some 8, twoPages).
Proof.
  destruct (@lazy_expiration Z) as [H _].
  destruct (H twoPages "b" noShape (entryOf 1 "b" noShape 8) 60002 eq_refl)
    as [Hold _].
  destruct (H twoPages "b" noShape (entryOf 1 "b" noShape 8) 60000 eq_refl)
    as [_ Hnew].
  split.
  - apply Hold. simpl. lia.
  - apply Hnew. simpl. lia.
Defined.

Lemma invalidate_scoped_witness :
  JSMap.keys (cache (invalidate twoPages (Some "a"))) = ["b:::0:20"].
Proof.
  destruct (@invalidate_scoped Z) as [H _].
  destruct (H twoPages "a" twoPages_unique) as [Hcache _].
  - discriminate.
  - rewrite Hcache. reflexivity.
Defined.

(** C8 as stated fails for the empty string: [invalidate] with the empty string also removes
    the entries whose stored [url] differs from it. *)
Lemma invalidate_empty_string_clears_all :
  ~ (forall (this : DOMCache Z) u k e,
        uniqueKeys this ->
        JSMap.get k (cache this) = Some e -> url e <> u ->
        JSMap.get k (cache (invalidate this (Some u))) = Some e).
Proof.
  intros H.
  specialize (H twoPages EmptyString "a:::0:20" (entryOf 0 "a" noShape 7)
                twoPages_unique eq_refl).
  simpl in H. discriminate H. discriminate.
Qed.

End Examples.

(** ** [browser_clear_cache] *)

Section ClearCacheFacts.

Import DomCache CacheOps.

(** C10.  [olderThanSeconds = 0] is treated as an absent parameter: the
    handler answers and changes the cache exactly as without it.  The
    cache is then [invalidate(url)]'s: with a non-empty [url] the
    URL-scoped clear, reported as such, and without one the entire cache
    is cleared.  This is not the age-based prune with threshold [0]: there
    are caches on which the prune keeps an entry that the call removes,
    and caches on which it removes an entry that the call keeps. *)
Theorem clear_cache_zero_seconds :
  (forall (Data : Type) (now : Z) (url : option string) (this : DOMCache Data),
      ClearCache.handle now (ClearCache.mkParams url (Some 0)) this
      = ClearCache.handle now (ClearCache.mkParams url None) this
      /\ snd (ClearCache.handle now (ClearCache.mkParams url (Some 0)) this)
         = invalidate this url)
  /\ (forall (Data : Type) (now : Z) (u : string) (this : DOMCache Data),
         u <> EmptyString ->
         ClearCache.handle now (ClearCache.mkParams (Some u) (Some 0)) this
         = ([("Cleared cache for URL: " ++ u)%string;
             ("Current cache size: "
                ++ JS.numberToString (size (invalidate this (Some u)))
                ++ " entries")%string],
            invalidate this (Some u)))
  /\ (forall (Data : Type) (now : Z) (this : DOMCache Data),
         ClearCache.handle now (ClearCache.mkParams None (Some 0)) this
         = (["Cleared entire DOM cache"; "Current cache size: 0 entries"],
            withCache this []))
  /\ (JSMap.keys
        (cache (snd (ClearCache.handle 1 (ClearCache.mkParams None (Some 0))
                       twoPages))) = []
      /\ JSMap.keys (cache (invalidateOlderThan 1 twoPages 0)) = ["b:::0:20"])
  /\ (JSMap.keys
        (cache (snd (ClearCache.handle 2 (ClearCache.mkParams (Some "a") (Some 0))
                       twoPages))) = ["b:::0:20"]
      /\ JSMap.keys (cache (invalidateOlderThan 2 twoPages 0)) = []).
Proof.
  split; [|split; [|split; [|split]]].
  - intros Data now url this. split; [reflexivity|].
    unfold ClearCache.handle. simpl.
    now destruct (JS.truthyOptString url) eqn:Hurl; destruct url as [[|c s]|].
  - intros Data now u this Hu.
    destruct u as [|c s]; [contradiction | reflexivity].
  - reflexivity.
  - split; reflexivity.
  - split; reflexivity.
Qed.

Lemma clear_cache_zero_seconds_witness :
  fst (ClearCache.handle 5 (ClearCache.mkParams (Some "a") (Some 0)) twoPages)
  = ["Cleared cache for URL: a"; "Current cache size: 1 entries"].
Proof.
  destruct clear_cache_zero_seconds as (_ & H & _).
  rewrite (H Z 5 "a" twoPages); [reflexivity | discriminate].
Defined.

End ClearCacheFacts.

(** ** [DOMCache]: capacity and eviction *)

Section CapacityFacts.

Import DomCache CacheOps.
Context {Data : Type}.
Implicit Types (this : DOMCache Data) (m : JSMap.t (CacheEntry Data)).

(** The loop with a candidate [(k0, t0)] in hand: either the candidate
    survives, and no entry is older than it, or the loop settles on the
    first entry of the least time stamp, which is older than [t0]. *)
Lemma findOldestLoop_candidate entries : forall k0 t0,
  (findOldestLoop entries (Some k0) (Some t0) = Some k0
   /\ Forall (notBefore Data t0) entries)
  \/ (exists pre k e post,
        entries = pre ++ (k, e) :: post
        /\ findOldestLoop entries (Some k0) (Some t0) = Some k
        /\ timestamp e < t0
        /\ Forall (strictlyAfter Data (timestamp e)) pre
        /\ Forall (notBefore Data (timestamp e)) post).
Proof.
  induction entries as [|[k1 e1] rest IH]; intros k0 t0; simpl.
  - left. split; [reflexivity | constructor].
  - destruct (Z.ltb_spec (timestamp e1) t0) as [Hlt|Hge].
    + right. destruct (IH k1 (timestamp e1)) as [[Hres Hall]|Hfound].
      * exists [], k1, e1, rest. simpl. conj_split; auto.
      * destruct Hfound as (pre & k & e & post & -> & Hres & Hlt' & Hpre & Hpost).
        exists ((k1, e1) :: pre), k, e, post. simpl.
        conj_split; auto; lia.
    + destruct (IH k0 t0) as [[Hres Hall]|Hfound].
      * left. split; [exact Hres|]. constructor; [exact Hge | exact Hall].
      * right.
        destruct Hfound as (pre & k & e & post & -> & Hres & Hlt' & Hpre & Hpost).
        exists ((k1, e1) :: pre), k, e, post. simpl.
        conj_split; auto.
        constructor; [unfold strictlyAfter; simpl; lia | exact Hpre].
Qed.

(** On a non-empty store [findOldestEntry] names the first entry, in
    iteration order, among those of the least time stamp. *)
Lemma findOldestEntry_first_oldest this :
  cache this <> [] ->
  exists pre k e post,
    cache this = pre ++ (k, e) :: post
    /\ findOldestEntry this = Some k
    /\ Forall (strictlyAfter Data (timestamp e)) pre
    /\ Forall (notBefore Data (timestamp e)) post.
Proof.
  unfold findOldestEntry. destruct (cache this) as [|[k1 e1] rest]; [congruence|].
  intros _. simpl.
  destruct (findOldestLoop_candidate rest k1 (timestamp e1)) as [[Hres Hall]|Hfound].
  - exists [], k1, e1, rest. simpl. conj_split; auto.
  - destruct Hfound as (pre & k & e & post & -> & Hres & Hlt & Hpre & Hpost).
    exists ((k1, e1) :: pre), k, e, post. simpl. conj_split; auto.
Qed.

Lemma generateKey_truthy url params :
  JS.truthyString (generateKey url params) = true.
Proof. unfold generateKey. destruct url; reflexivity. Qed.

Lemma keysTruthy_filter this (f : string * CacheEntry Data -> bool) :
  keysTruthy this -> keysTruthy (withCache this (filter f (cache this))).
Proof.
  unfold keysTruthy. simpl. rewrite !Forall_forall. intros H k Hk.
  apply H. unfold JSMap.keys in *. apply in_map_iff in Hk.
  destruct Hk as (kv & <- & Hin). apply in_map. now apply filter_In in Hin.
Qed.

(** Deleting entries keeps the invariant. *)
Lemma bounded_filter this (f : string * CacheEntry Data -> bool) :
  bounded this -> bounded (withCache this (filter f (cache this))).
Proof.
  intros (Hu & Ht & Hs). split; [|split].
  - unfold uniqueKeys in *. simpl. clear Ht Hs.
    induction (cache this) as [|[k e] m IH]; simpl; [constructor|].
    inversion Hu as [|? ? Hnotin Hu']; subst.
    destruct (f (k, e)); simpl; [|now apply IH].
    constructor; [|now apply IH].
    intros Hin. apply Hnotin. unfold JSMap.keys in *.
    apply in_map_iff in Hin. destruct Hin as (kv & <- & Hin).
    apply in_map. now apply filter_In in Hin.
  - now apply keysTruthy_filter.
  - unfold size, JSMap.size in *. simpl.
    pose proof (filter_length_le f (cache this)). lia.
Qed.

(** The eviction step on a full store: the entry named by
    [findOldestEntry] goes, the others stay in order. *)
Lemma evictOldest_split this :
  uniqueKeys this -> keysTruthy this -> cache this <> [] ->
  exists pre k e post,
    cache this = pre ++ (k, e) :: post
    /\ evictOldest this = pre ++ post
    /\ Forall (strictlyAfter Data (timestamp e)) pre
    /\ Forall (notBefore Data (timestamp e)) post.
Proof.
  intros Hu Ht Hne.
  destruct (findOldestEntry_first_oldest this Hne)
    as (pre & k & e & post & Hcache & Hfind & Hpre & Hpost).
  exists pre, k, e, post. conj_split; auto.
  unfold evictOldest. rewrite Hfind.
  assert (Hk : JS.truthyString k = true).
  { unfold keysTruthy in Ht. rewrite Forall_forall in Ht. apply Ht.
    rewrite Hcache. unfold JSMap.keys. rewrite map_app. simpl.
    apply in_or_app. right. now left. }
  rewrite Hk, Hcache. apply map_delete_split.
  unfold uniqueKeys in Hu. now rewrite Hcache in Hu.
Qed.

Lemma keysTruthy_set k (e : CacheEntry Data) m :
  Forall (fun k => JS.truthyString k = true) (JSMap.keys m) ->
  JS.truthyString k = true ->
  Forall (fun k => JS.truthyString k = true) (JSMap.keys (JSMap.set k e m)).
Proof.
  intros Hm Hk. unfold JSMap.set. destruct (JSMap.has k m).
  - now rewrite map_keys_replace.
  - unfold JSMap.keys in *. rewrite map_app. apply Forall_app. split; [exact Hm|].
    repeat constructor. exact Hk.
Qed.

Lemma length_set_present k (e : CacheEntry Data) m :
  JSMap.has k m = true -> List.length (JSMap.set k e m) = List.length m.
Proof.
  intros H. unfold JSMap.set. rewrite H.
  rewrite <- (length_map fst), <- (length_map fst m).
  fold (JSMap.keys (JSMap.replace k e m)). now rewrite map_keys_replace.
Qed.

Lemma length_set_fresh k (e : CacheEntry Data) m :
  JSMap.has k m = false -> List.length (JSMap.set k e m) = S (List.length m).
Proof.
  intros H. unfold JSMap.set. rewrite H, length_app. simpl. lia.
Qed.

Lemma bounded_set this now url params d :
  1 <= maxEntries this ->
  bounded this -> bounded (set now this url params d).
Proof.
  intros Hmax (Hu & Ht & Hs).
  unfold set. set (key := generateKey url params).
  set (entry := mkEntry d now url _ _).
  destruct (JSMap.has key (cache this)) eqn:Hhas.
  - rewrite andb_false_r. split; [|split].
    + apply map_NoDup_set. exact Hu.
    + apply keysTruthy_set; [exact Ht | apply generateKey_truthy].
    + unfold size, JSMap.size in *. simpl.
      rewrite length_set_present by exact Hhas. exact Hs.
  - rewrite andb_true_r.
    destruct (Z.geb_spec (JSMap.size (cache this)) (maxEntries this)) as [Hfull|Hroom].
    + assert (Hne : cache this <> []).
      { intros Hnil. unfold JSMap.size in Hfull. rewrite Hnil in Hfull.
        simpl in Hfull. lia. }
      destruct (evictOldest_split this Hu Ht Hne)
        as (pre & k & e & post & Hcache & Hev & _ & _).
      assert (Hfresh : JSMap.has key (evictOldest this) = false).
      { apply map_has_false. apply map_has_false in Hhas.
        apply map_get_keys. apply map_get_keys in Hhas.
        intros Hin. apply Hhas. rewrite Hev in Hin. rewrite Hcache.
        unfold JSMap.keys in *. rewrite map_app in *. simpl.
        apply in_app_or in Hin. apply in_or_app. simpl. tauto. }
      assert (Hsub : evictOldest this
                     = filter (fun kv => negb (String.eqb (fst kv) k)) (cache this)).
      { rewrite Hev, Hcache. symmetry. apply map_delete_split.
        unfold uniqueKeys in Hu. now rewrite Hcache in Hu. }
      split; [|split].
      * apply map_NoDup_set. rewrite Hsub. apply map_NoDup_delete. exact Hu.
      * apply keysTruthy_set; [|apply generateKey_truthy].
        rewrite Hsub. apply (keysTruthy_filter this). exact Ht.
      * unfold size, JSMap.size in *. simpl.
        rewrite length_set_fresh by exact Hfresh.
        rewrite Hev. rewrite Hcache in Hs. rewrite length_app in *.
        simpl in Hs. lia.
    + split; [|split].
      * apply map_NoDup_set. exact Hu.
      * apply keysTruthy_set; [exact Ht | apply generateKey_truthy].
      * unfold size, JSMap.size in *. simpl.
        rewrite length_set_fresh by exact Hhas. lia.
Qed.

Lemma deleteAll_as_filter this ks :
  withCache this (JSMap.deleteAll ks (cache this))
  = withCache this
      (filter (fun kv => negb (existsb (String.eqb (fst kv)) ks)) (cache this)).
Proof. now rewrite deleteAll_filter. Qed.

Lemma bounded_step this op :
  1 <= maxEntries this -> bounded this ->
  bounded (step this op) /\ maxEntries (step this op) = maxEntries this.
Proof.
  intros Hmax Hb. destruct op as [now url params|now url params d|url|now age]; simpl.
  - unfold get. destruct (JSMap.get _ (cache this)) as [entry|]; simpl; [|auto].
    destruct (now - timestamp entry >? maxAge this); simpl; [|auto].
    split; [|reflexivity]. now apply bounded_filter.
  - split; [now apply bounded_set | reflexivity].
  - unfold invalidate. destruct (JS.truthyOptString url).
    + rewrite deleteAll_as_filter. split; [now apply bounded_filter | reflexivity].
    + split; [|reflexivity]. destruct Hb as (_ & _ & Hs).
      unfold bounded, uniqueKeys, keysTruthy. simpl.
      conj_split;
        [apply NoDup_nil | apply Forall_nil | unfold size, JSMap.size; simpl; lia].
  - unfold invalidateOlderThan. rewrite deleteAll_as_filter.
    split; [now apply bounded_filter | reflexivity].
Qed.

Lemma bounded_run ops : forall this,
  1 <= maxEntries this -> bounded this ->
  bounded (run ops this) /\ maxEntries (run ops this) = maxEntries this.
Proof.
  induction ops as [|op ops IH]; intros this Hmax Hb; simpl; [auto|].
  destruct (bounded_step this op Hmax Hb) as [Hb' Hm'].
  destruct (IH (step this op)) as [Hb'' Hm'']; [lia | exact Hb' |].
  split; [exact Hb'' | congruence].
Qed.

Lemma bounded_constructor maxAgeSeconds maxEntries :
  1 <= maxEntries -> bounded (@constructor Data maxAgeSeconds maxEntries).
Proof.
  intros H. unfold bounded, uniqueKeys, keysTruthy. simpl.
  conj_split;
        [apply NoDup_nil | apply Forall_nil | unfold size, JSMap.size; simpl; lia].
Qed.

End CapacityFacts.

Section CapacityTheorem.

Import DomCache CacheOps.
Context {Data : Type}.

Lemma set_present (this : DOMCache Data) now url params d :
  JSMap.has (generateKey url params) (cache this) = true ->
  cache (set now this url params d)
  = JSMap.replace (generateKey url params) (entryOf now url params d)
                  (cache this).
Proof.
  intros Hhas. unfold set. rewrite Hhas, andb_false_r. simpl.
  unfold JSMap.set. now rewrite Hhas.
Qed.

Lemma set_room (this : DOMCache Data) now url params d :
  size this < maxEntries this ->
  JSMap.has (generateKey url params) (cache this) = false ->
  cache (set now this url params d)
  = cache this ++ [(generateKey url params, entryOf now url params d)].
Proof.
  intros Hroom Hhas. unfold set. rewrite Hhas, andb_true_r.
  unfold size in Hroom.
  destruct (Z.geb_spec (JSMap.size (cache this)) (maxEntries this)); [lia|].
  simpl. unfold JSMap.set. now rewrite Hhas.
Qed.

Lemma set_full (this : DOMCache Data) now url params d :
  uniqueKeys this -> keysTruthy this ->
  cache this <> [] -> size this >= maxEntries this ->
  JSMap.has (generateKey url params) (cache this) = false ->
  exists pre oldestKey oldest post,
    cache this = pre ++ (oldestKey, oldest) :: post
    /\ Forall (strictlyAfter Data (timestamp oldest)) pre
    /\ Forall (notBefore Data (timestamp oldest)) post
    /\ cache (set now this url params d)
       = pre ++ post ++ [(generateKey url params, entryOf now url params d)].
Proof.
  intros Hu Ht Hne Hfull Hhas.
  destruct (evictOldest_split this Hu Ht Hne)
    as (pre & k & e & post & Hcache & Hev & Hpre & Hpost).
  exists pre, k, e, post. conj_split; auto.
  unfold set. rewrite Hhas, andb_true_r. unfold size in Hfull.
  destruct (Z.geb_spec (JSMap.size (cache this)) (maxEntries this)); [|lia].
  simpl. rewrite Hev.
  assert (Hfresh : JSMap.has (generateKey url params) (pre ++ post) = false).
  { apply map_has_false. apply map_has_false in Hhas.
    rewrite Hcache in Hhas. rewrite map_get_app in *.
    destruct (JSMap.get (generateKey url params) pre); [discriminate|].
    simpl in Hhas. destruct (String.eqb k (generateKey url params));
      [discriminate | exact Hhas]. }
  unfold JSMap.set. rewrite Hfresh. now rewrite <- app_assoc.
Qed.

(** C3, as the code has it.  For a cache constructed with [maxEntries] of
    at least [1], after every sequence of [get], [set], [invalidate] and
    [invalidateOlderThan] calls the store holds at most [maxEntries]
    entries.  When [set] is called on a store of [maxEntries] entries with
    a key that is not present, exactly one entry is evicted before the
    insertion: the first, in iteration order, of the entries with the
    least time stamp; the others stay in order and the new entry comes
    last, so the store again holds [maxEntries] entries.  A [set] under a
    key that is present evicts nothing and replaces that entry in place,
    with the new payload and time stamp.  A [set] of a fresh key on a store
    below capacity evicts nothing. *)
Theorem capacity_eviction (maxAgeSeconds maxEntries : Z) (ops : list (Op Data)) :
  1 <= maxEntries ->
  let this := run ops (constructor maxAgeSeconds maxEntries) in
  size this <= maxEntries
  /\ (forall now url params d,
        size this = maxEntries ->
        JSMap.has (generateKey url params) (cache this) = false ->
        exists pre oldestKey oldest post,
          cache this = pre ++ (oldestKey, oldest) :: post
          /\ Forall (strictlyAfter Data (timestamp oldest)) pre
          /\ Forall (notBefore Data (timestamp oldest)) post
          /\ cache (set now this url params d)
             = pre ++ post
                   ++ [(generateKey url params, entryOf now url params d)]
          /\ size (set now this url params d) = maxEntries)
  /\ (forall now url params d,
        JSMap.has (generateKey url params) (cache this) = true ->
        cache (set now this url params d)
        = JSMap.replace (generateKey url params) (entryOf now url params d)
                        (cache this)
        /\ JSMap.keys (cache (set now this url params d))
           = JSMap.keys (cache this)
        /\ JSMap.get (generateKey url params)
             (cache (set now this url params d))
           = Some (entryOf now url params d)
        /\ forall k, k <> generateKey url params ->
             JSMap.get k (cache (set now this url params d))
             = JSMap.get k (cache this))
  /\ (forall now url params d,
        size this < maxEntries ->
        JSMap.has (generateKey url params) (cache this) = false ->
        cache (set now this url params d)
        = cache this ++ [(generateKey url params, entryOf now url params d)]).
Proof.
  intros Hmax this.
  destruct (bounded_run ops (constructor maxAgeSeconds maxEntries))
    as [(Hu & Ht & Hs) Hm]; [exact Hmax | now apply bounded_constructor |].
  fold this in Hu, Ht, Hs, Hm. simpl in Hm.
  split; [lia|]. split; [|split].
  - intros now url params d Hsize Hhas.
    assert (Hne : cache this <> []).
    { intros Hnil. unfold size, JSMap.size in Hsize. rewrite Hnil in Hsize.
      simpl in Hsize. lia. }
    destruct (set_full this now url params d Hu Ht Hne ltac:(lia) Hhas)
      as (pre & k & e & post & Hcache & Hpre & Hpost & Hset).
    exists pre, k, e, post. conj_split; auto.
    unfold size, JSMap.size in *. rewrite Hset. rewrite Hcache in Hsize.
    rewrite !length_app in *. simpl in *. lia.
  - intros now url params d Hhas.
    pose proof (set_present this now url params d Hhas) as Hset.
    conj_split.
    + exact Hset.
    + rewrite Hset. apply map_keys_replace.
    + apply cache_set_lookup.
    + intros k Hk. rewrite Hset. now apply map_get_replace_ne.
  - intros now url params d Hroom Hhas. apply set_room; [lia | exact Hhas].
Qed.

End CapacityTheorem.

Section CapacityExamples.

Import DomCache CacheOps.

(** C3 as stated fails for a cache constructed with [maxEntries = 0]:
    the first [set] finds nothing to evict and stores its entry. *)
Lemma capacity_zero_exceeded :
  ~ (forall (maxEntries : Z) (ops : list (Op Z)),
        size (run ops (constructor 60 maxEntries)) <= maxEntries).
Proof.
  intros H. specialize (H 0 [OpSet 0 "a" noShape 7]).
  vm_compute in H. apply H. reflexivity.
Qed.

Lemma capacity_eviction_witness :
  size (run [OpSet 5 "a" noShape 7; OpSet 3 "b" noShape 8; OpSet 9 "c" noShape 9]
            (constructor 60 2)) <= 2.
Proof.
  apply (capacity_eviction 60 2
           [OpSet 5 "a" noShape 7; OpSet 3 "b" noShape 8; OpSet 9 "c" noShape 9]).
  lia.
Defined.

(** The run of the witness: the entry of page ["b"], stored at time [3],
    is the oldest and is the one evicted. *)
Example eviction_run :
  JSMap.keys
    (cache (run [OpSet 5 "a" noShape 7; OpSet 3 "b" noShape 8;
                 OpSet 9 "c" noShape 9]
                (constructor 60 2)))
  = ["a:::0:20"; "c:::0:20"].
Proof. reflexivity. Qed.

End CapacityExamples.

(** ** [browser_query_dom]: the order of the matches *)

Section SortFacts.

Import JS QueryDom SearchSpec.

Lemma insertMatch_perm m ms : Permutation (insertMatch m ms) (m :: ms).
Proof.
  induction ms as [|x ms IH]; simpl; [reflexivity|].
  destruct (score m <? score x); [|reflexivity].
  rewrite IH. apply perm_swap.
Qed.

Lemma sortMatches_perm ms : Permutation (sortMatches ms) ms.
Proof.
  induction ms as [|m ms IH]; simpl; [reflexivity|].
  rewrite insertMatch_perm. now constructor.
Qed.









End SortFacts.

(** ** [browser_query_dom]: scores *)

Section ScoreFacts.

Import JS QueryDom SearchSpec.

Lemma bonuses_range el : 0 <= bonuses el <= 15.
Proof.
  unfold bonuses.
  destruct (_ && _); destruct (existsb _ _); lia.
Qed.

Lemma scoreOf_bonuses searchText directText el :
  scoreOf searchText directText el
  = option_map (fun tier => tier + bonuses el)
               (textScore searchText directText).
Proof.
  unfold scoreOf, bonuses, visibleBonus, semanticBonus, semanticTags.
  destruct (textScore searchText directText); simpl; [|reflexivity].
  f_equal. lia.
Qed.


(** The tier is [100] exactly for an exact match, and at most [50]
    otherwise. *)
Lemma textScore_exact searchText directText tier :
  textScore searchText directText = Some tier ->
  (toLowerCase directText = searchText /\ tier = 100)
  \/ (toLowerCase directText <> searchText /\ 0 <= tier <= 50).
Proof.
  unfold textScore.
  destruct (String.eqb_spec (toLowerCase directText) searchText) as [He|Hne].
  - intros [= <-]. now left.
  - intros H. right. split; [exact Hne|].
    destruct (startsWith _ _); [injection H as <-; lia|].
    destruct (RegExp.test _ _) as [[|]|]; [injection H as <-; lia | | discriminate].
    destruct (includes _ _); injection H as <-; lia.
Qed.

Lemma scoreOf_exact searchText directText el s :
  scoreOf searchText directText el = Some s ->
  (toLowerCase directText = searchText /\ 100 <= s)
  \/ (toLowerCase directText <> searchText /\ s <= 65).
Proof.
  rewrite scoreOf_bonuses.
  destruct (textScore searchText directText) as [tier|] eqn:Ht; [|discriminate].
  simpl. intros [= <-]. pose proof (bonuses_range el).
  destruct (textScore_exact _ _ _ Ht) as [[? ?]|[? ?]]; [left | right];
    split; auto; lia.
Qed.




End ScoreFacts.

(** ** [browser_query_dom]: ranking and pagination of a search *)

Section RankingTheorem.

Import JS QueryDom SearchSpec.

(** The scenario of the specification: the element with the direct text
    ["Submit"] comes before the one with ["Please submit the form"] in a
    search for ["submit"], in either document order, although the latter
    is visible and a heading. *)
Example ranking_scenario :
  option_map (fun r => map textContent (Result.elements r))
             (searchScript Scenario.exactFirst "submit" 0 20 500 true)
  = Some ["Submit"; "Please submit the form"]
  /\ option_map (fun r => map textContent (Result.elements r))
                (searchScript Scenario.exactLast "submit" 0 20 500 true)
     = Some ["Submit"; "Please submit the form"]
  /\ option_map (fun r => map relevanceScore (Result.elements r))
                (searchScript Scenario.exactLast "submit" 0 20 500 true)
     = Some [Some 110; Some 45].
Proof. conj_split; reflexivity. Qed.

End RankingTheorem.

(** ** [browser_query_dom]: the tiers of the text score *)

Section TierFacts.

Import JS QueryDom SearchSpec.

Lemma startsWith_refl s : startsWith s s = true.
Proof.
  induction s as [|c s IH]; simpl; [reflexivity|].
  now rewrite Ascii.eqb_refl.
Qed.

Lemma includes_startsWith s t : startsWith s t = true -> includes s t = true.
Proof. intros H. destruct s; cbn [includes]; rewrite H; reflexivity. Qed.

Lemma plain_not_special c :
  RegExp.isSyntaxChar c = false ->
  (code c =? 92)%N = false /\ (code c =? 46)%N = false.
Proof.
  unfold RegExp.isSyntaxChar. simpl. intros H.
  repeat (apply orb_false_elim in H; destruct H as [? H]).
  split; assumption.
Qed.

(** The pattern of a plain search text is the text itself, letter by
    letter, between two word boundaries. *)
Lemma parse_plain searchText :
  plain searchText = true ->
  RegExp.parse (searchText ++ "\b")
  = Some (literals searchText ++ [RegExp.WordBoundary]).
Proof.
  induction searchText as [|c rest IH]; intros Hp; [reflexivity|].
  simpl in Hp. apply andb_prop in Hp. destruct Hp as [Hc Hrest].
  apply negb_true_iff in Hc.
  destruct (plain_not_special c Hc) as [H92 H46].
  simpl. rewrite H92, H46, Hc, (IH Hrest). reflexivity.
Qed.

Lemma test_plain searchText directText :
  plain searchText = true ->
  RegExp.test ("\b" ++ searchText ++ "\b") directText
  = Some (RegExp.matchFrom
            (RegExp.WordBoundary :: literals searchText
               ++ [RegExp.WordBoundary]) None directText).
Proof.
  intros Hp. unfold RegExp.test.
  change (RegExp.parse ("\b" ++ searchText ++ "\b"))
    with (option_map (cons RegExp.WordBoundary)
                     (RegExp.parse (searchText ++ "\b"))).
  now rewrite (parse_plain _ Hp).
Qed.

(** For a plain search text the score is the tier plus the bonuses. *)
Lemma textScore_plain searchText directText :
  plain searchText = true ->
  textScore searchText directText = Some (tierOf searchText directText).
Proof.
  intros Hp. unfold textScore, tierOf. rewrite (test_plain _ _ Hp).
  destruct (String.eqb _ _); [reflexivity|].
  destruct (startsWith _ _); [reflexivity|].
  destruct (RegExp.matchFrom _ _ _); [reflexivity|].
  destruct (includes _ _); reflexivity.
Qed.

(** A match of the letters is a prefix of the input, up to case. *)
Lemma matchHere_literals searchText tail : forall prev input,
  RegExp.matchHere (literals searchText ++ tail) prev input = true ->
  startsWith (toLowerCase input) (toLowerCase searchText) = true.
Proof.
  induction searchText as [|c rest IH]; intros prev input H; [reflexivity|].
  simpl in H. destruct input as [|d input']; [discriminate|].
  apply andb_prop in H. destruct H as [Hcd Hrest].
  unfold RegExp.sameChar in Hcd. apply Ascii.eqb_eq in Hcd.
  simpl. rewrite Hcd, Ascii.eqb_refl. simpl.
  now apply (IH (Some d)).
Qed.

Lemma matchFrom_literals searchText : forall input prev,
  RegExp.matchFrom
    (RegExp.WordBoundary :: literals searchText ++ [RegExp.WordBoundary])
    prev input = true ->
  includes (toLowerCase input) (toLowerCase searchText) = true.
Proof.
  induction input as [|d input' IH]; intros prev H.
  - cbn [RegExp.matchFrom] in H. rewrite orb_false_r in H.
    cbn [RegExp.matchHere] in H.
    apply andb_prop in H. destruct H as [_ H].
    apply matchHere_literals in H. now apply includes_startsWith.
  - cbn [RegExp.matchFrom] in H. apply orb_prop in H. destruct H as [H|H].
    + cbn [RegExp.matchHere] in H. apply andb_prop in H. destruct H as [_ H].
      apply matchHere_literals in H. now apply includes_startsWith.
    + apply IH in H. cbn [toLowerCase includes]. rewrite H. apply orb_true_r.
Qed.

(** With a plain, lower-case search text a tier other than [0] is given
    only to a direct text that contains it. *)
Lemma tierOf_absent searchText directText :
  toLowerCase searchText = searchText ->
  includes (toLowerCase directText) searchText = false ->
  tierOf searchText directText = 0.
Proof.
  intros Hlow Hinc. unfold tierOf.
  destruct (String.eqb_spec (toLowerCase directText) searchText) as [He|_].
  - rewrite He in Hinc. rewrite includes_startsWith in Hinc; [discriminate|].
    apply startsWith_refl.
  - destruct (startsWith _ _) eqn:Hs.
    + apply includes_startsWith in Hs. congruence.
    + destruct (RegExp.matchFrom _ _ _) eqn:Hm.
      * apply matchFrom_literals in Hm. rewrite Hlow in Hm. congruence.
      * now rewrite Hinc.
Qed.

(** The policy of the specification holds for plain search texts: the
    score of a matched element is one tier, or none, plus the bonuses,
    and an element matched by an attribute value only has the bonuses. *)
Lemma scoreOf_plain searchText directText el :
  plain searchText = true ->
  toLowerCase searchText = searchText ->
  scoreOf searchText directText el
  = Some (tierOf searchText directText + bonuses el)
  /\ In (tierOf searchText directText) [100; 50; 30; 10; 0]
  /\ (includes (toLowerCase directText) searchText = false ->
      scoreOf searchText directText el = Some (bonuses el)).
Proof.
  intros Hp Hlow.
  assert (Hs : scoreOf searchText directText el
               = Some (tierOf searchText directText + bonuses el)).
  { now rewrite scoreOf_bonuses, (textScore_plain _ _ Hp). }
  conj_split.
  - exact Hs.
  - unfold tierOf. simpl.
    destruct (String.eqb _ _); [tauto|].
    destruct (startsWith _ _); [tauto|].
    destruct (RegExp.matchFrom _ _ _); [tauto|].
    destruct (includes _ _); tauto.
  - intros Hinc. rewrite Hs, (tierOf_absent _ _ Hlow Hinc). reflexivity.
Qed.

(** C4, at an input on which the code leaves the policy.  The search
    text [a.c] reaches [RegExp] unescaped, where its dot matches any
    character.  The paragraph [titled] matches through its title only:
    its direct text [abc] does not contain the search text.  Its score
    should be its bonus, [5]; the script gives it [35], the word tier
    included. *)
Theorem wildcard_scores_attribute_match :
  isMatch "a.c" "abc" Scenario.titled = true
  /\ includes (toLowerCase "abc") "a.c" = false
  /\ bonuses Scenario.titled = 5
  /\ scoreOf "a.c" "abc" Scenario.titled = Some 35
  /\ option_map (fun r => map relevanceScore (Result.elements r))
       (searchScript (Scenario.window [Scenario.titled]) "a.c" 0 20 500 true)
     = Some [Some 35].
Proof. conj_split; reflexivity. Qed.

End TierFacts.

(** ** [browser_query_dom]: the handler, its errors and the cache *)

Section HandlerFacts.

Import JS DomCache QueryDom.

Implicit Types (evaluate : Script -> Completion QueryResult)
               (domCache : DOMCache QueryResult).

Lemma javascript_missing params :
  javascript params = None
  <-> truthyOptString (QueryDom.selector params) = false
      /\ truthyOptString (QueryDom.searchText params) = false.
Proof.
  unfold javascript.
  destruct (truthyOptString (QueryDom.selector params));
    destruct (truthyOptString (QueryDom.searchText params));
    split; try discriminate; try tauto; intros [? ?]; discriminate.
Qed.

Lemma handle_missing evaluate currentUrl clock params domCache :
  fst (cacheCheck currentUrl clock params domCache) = None ->
  javascript params = None ->
  handle evaluate currentUrl clock params domCache
  = (Throw missingArgument,
     snd (cacheCheck currentUrl clock params domCache)).
Proof.
  unfold handle. destruct (cacheCheck _ _ _ _) as [cached domCache1].
  simpl. now intros -> ->.
Qed.

Lemma handle_throw evaluate currentUrl clock params domCache js e :
  fst (cacheCheck currentUrl clock params domCache) = None ->
  javascript params = Some js -> evaluate js = Throw e ->
  handle evaluate currentUrl clock params domCache
  = (Throw e, snd (cacheCheck currentUrl clock params domCache)).
Proof.
  unfold handle. destruct (cacheCheck _ _ _ _) as [cached domCache1].
  simpl. now intros -> -> ->.
Qed.

(** A cache check that misses leaves the cache as it was, or has deleted
    the expired entry that it found under the key of the query. *)
Lemma cacheCheck_miss currentUrl clock params domCache :
  fst (cacheCheck currentUrl clock params domCache) = None ->
  let key := generateKey currentUrl (cacheParams params) in
  let after := snd (cacheCheck currentUrl clock params domCache) in
  (after = domCache
   \/ exists entry,
        useCache params && negb (forceRefresh params) = true
        /\ JSMap.get key (cache domCache) = Some entry
        /\ atGet clock - timestamp entry > maxAge domCache
        /\ after = withCache domCache (JSMap.delete key (cache domCache)))
  /\ (useCache params && negb (forceRefresh params) = false ->
      after = domCache)
  /\ (JSMap.get key (cache domCache) = None -> after = domCache).
Proof.
  unfold cacheCheck, get.
  destruct (useCache params && negb (forceRefresh params)); simpl.
  - destruct (JSMap.get _ (cache domCache)) as [entry|] eqn:Hget; simpl.
    + destruct (Z.gtb_spec (atGet clock - timestamp entry) (maxAge domCache))
        as [Hold|Hnew]; simpl; [|discriminate].
      intros _. conj_split; [|discriminate|discriminate].
      right. exists entry. conj_split; auto. lia.
    + intros _. conj_split; auto.
  - intros _. conj_split; auto.
Qed.

(** Such a check writes nothing: what is found afterwards was there. *)
Lemma cacheCheck_miss_frame currentUrl clock params domCache :
  fst (cacheCheck currentUrl clock params domCache) = None ->
  let key := generateKey currentUrl (cacheParams params) in
  let after := snd (cacheCheck currentUrl clock params domCache) in
  (forall k v, JSMap.get k (cache after) = Some v ->
               JSMap.get k (cache domCache) = Some v)
  /\ (forall k, k <> key ->
                JSMap.get k (cache after) = JSMap.get k (cache domCache))
  /\ maxAge after = maxAge domCache
  /\ maxEntries after = maxEntries domCache.
Proof.
  intros Hmiss key after.
  destruct (cacheCheck_miss _ _ _ _ Hmiss) as [[Hsame|Hdel] _].
  - fold after in Hsame. rewrite Hsame. conj_split; auto.
  - destruct Hdel as (entry & _ & _ & _ & Hafter).
    fold after key in Hafter. rewrite Hafter. simpl. conj_split; auto.
    + intros k v Hk. destruct (String.eqb_spec k key) as [->|Hne].
      * rewrite map_get_delete_eq in Hk. discriminate.
      * now rewrite map_get_delete_ne in Hk.
    + intros k Hne. now apply map_get_delete_ne.
Qed.

(** When the cache check misses, a call with neither a selector nor a
    search text throws the error of the tool and writes nothing. *)
Lemma missing_argument_on_miss evaluate currentUrl clock params domCache :
  truthyOptString (QueryDom.selector params) = false ->
  truthyOptString (QueryDom.searchText params) = false ->
  fst (cacheCheck currentUrl clock params domCache) = None ->
  fst (handle evaluate currentUrl clock params domCache)
  = Throw missingArgument
  /\ forall k v,
       JSMap.get k (cache (snd (handle evaluate currentUrl clock params
                                       domCache))) = Some v ->
       JSMap.get k (cache domCache) = Some v.
Proof.
  intros Hsel Hsearch Hmiss.
  rewrite (handle_missing _ _ _ _ _ Hmiss)
    by (apply javascript_missing; now split).
  split; [reflexivity|]. simpl.
  now apply cacheCheck_miss_frame.
Qed.

(** C6, at an input on which the code leaves the claim.  The cache is
    checked before the arguments are: after a search for a colon on the
    page [http://h/p], a call with neither a selector nor a search text on
    the page [http://h/p:] has the key of that search.  It does not throw;
    it is served the cached result of the search. *)
Theorem missing_argument_served_from_cache :
  javascript (Scenario.defaults None None) = None
  /\ generateKey "http://h/p:" (cacheParams (Scenario.defaults None None))
     = generateKey "http://h/p"
                   (cacheParams (Scenario.defaults None (Some ":")))
  /\ (exists result,
         fst Scenario.firstCall = Normal (mkResponse result false None)
         /\ fst Scenario.secondCall
            = Normal (mkResponse result true (Some 2000)))
  /\ fst Scenario.secondCall <> Throw missingArgument.
Proof.
  conj_split; [reflexivity | reflexivity | | vm_compute; discriminate].
  eexists. split; vm_compute; reflexivity.
Qed.

(** C7, as the code has it.  When the call is not served from the cache
    and the evaluation of its script throws [e], the handler throws [e]
    and no entry is written or changed: every entry found afterwards was
    there before, and every key but the query's own is looked up as
    before.  The cache is exactly what it was, unless the cache check met
    an expired entry under the query's key and deleted it; it is exactly
    what it was when the check is disabled or finds no entry. *)
Theorem evaluation_failure_writes_nothing evaluate currentUrl clock params
    domCache js e :
  fst (cacheCheck currentUrl clock params domCache) = None ->
  javascript params = Some js ->
  evaluate js = Throw e ->
  let key := generateKey currentUrl (cacheParams params) in
  let after := snd (handle evaluate currentUrl clock params domCache) in
  fst (handle evaluate currentUrl clock params domCache) = Throw e
  /\ (forall k v, JSMap.get k (cache after) = Some v ->
                  JSMap.get k (cache domCache) = Some v)
  /\ (forall k, k <> key ->
                JSMap.get k (cache after) = JSMap.get k (cache domCache))
  /\ (after = domCache
      \/ exists entry,
           useCache params && negb (forceRefresh params) = true
           /\ JSMap.get key (cache domCache) = Some entry
           /\ atGet clock - timestamp entry > maxAge domCache
           /\ after = withCache domCache (JSMap.delete key (cache domCache)))
  /\ (useCache params && negb (forceRefresh params) = false ->
      after = domCache)
  /\ (JSMap.get key (cache domCache) = None -> after = domCache).
Proof.
  intros Hmiss Hjs Hthrow key after.
  subst after. rewrite (handle_throw _ _ _ _ _ _ _ Hmiss Hjs Hthrow). simpl.
  destruct (cacheCheck_miss_frame _ _ _ _ Hmiss) as (Hsub & Hframe & _).
  destruct (cacheCheck_miss _ _ _ _ Hmiss) as (Hcases & Hoff & Habsent).
  conj_split; auto.
Qed.

Lemma evaluation_failure_writes_nothing_witness :
  fst Scenario.lateCall = Throw (PageError "Execution context was destroyed").
Proof.
  apply (evaluation_failure_writes_nothing
           Scenario.detached "http://h/p"
           (mkClock 100000 100000 100000)
           (Scenario.defaults None (Some ":")) (snd Scenario.firstCall)
           (SearchScript ":" 0 20 500 true)
           (PageError "Execution context was destroyed"));
    reflexivity.
Defined.

(** C7 as stated fails when the cache check meets an expired entry: the
    check deletes it before the evaluation throws, so the cache after the
    failed call is not the cache before it. *)
Lemma evaluation_failure_removes_expired_entry :
  ~ (forall evaluate currentUrl clock params domCache js e,
        javascript params = Some js ->
        evaluate js = Throw e ->
        fst (handle evaluate currentUrl clock params domCache) = Throw e ->
        snd (handle evaluate currentUrl clock params domCache) = domCache).
Proof.
  intros H.
  specialize (H Scenario.detached "http://h/p"
                (mkClock 100000 100000 100000)
                (Scenario.defaults None (Some ":")) (snd Scenario.firstCall)
                (SearchScript ":" 0 20 500 true)
                (PageError "Execution context was destroyed")
                eq_refl eq_refl eq_refl).
  apply (f_equal (fun c => JSMap.keys (cache c))) in H.
  vm_compute in H. discriminate H.
Qed.

End HandlerFacts.

(** * Further properties of the code *)

(** ** [DOMCache]: what every reachable cache satisfies *)

Section ReachableFacts.

Import DomCache CacheOps Extra.
Context {Data : Type}.
Implicit Types (this : DOMCache Data) (m : JSMap.t (CacheEntry Data)).

Lemma uniqueKeys_filter m (f : string * CacheEntry Data -> bool) :
  NoDup (JSMap.keys m) -> NoDup (JSMap.keys (filter f m)).
Proof.
  induction m as [|[k e] m IH]; simpl; intros Hnd; [constructor|].
  inversion Hnd as [|? ? Hnotin Hnd']; subst.
  destruct (f (k, e)); simpl; [|now apply IH].
  constructor; [|now apply IH].
  intros Hin. apply Hnotin. unfold JSMap.keys in *.
  apply in_map_iff in Hin. destruct Hin as (kv & <- & Hin).
  apply in_map. now apply filter_In in Hin.
Qed.

Lemma wellKeyed_filter this (f : string * CacheEntry Data -> bool) :
  wellKeyed this -> wellKeyed (withCache this (filter f (cache this))).
Proof.
  intros [Hu Ht]. split.
  - unfold uniqueKeys. simpl. now apply uniqueKeys_filter.
  - now apply keysTruthy_filter.
Qed.

Lemma wellKeyed_evictOldest this :
  wellKeyed this -> wellKeyed (withCache this (evictOldest this)).
Proof.
  intros Hw. unfold evictOldest.
  destruct (findOldestEntry this) as [k|]; [|now destruct this].
  destruct (JS.truthyString k); [|now destruct this].
  now apply wellKeyed_filter.
Qed.

Lemma wellKeyed_set this now url params d :
  wellKeyed this -> wellKeyed (set now this url params d).
Proof.
  intros Hw. unfold set.
  assert (Hk : wellKeyed
                 (withCache this
                    (if (JSMap.size (cache this) >=? maxEntries this)
                        && negb (JSMap.has (generateKey url params) (cache this))
                     then evictOldest this else cache this))).
  { destruct (_ && _);
      [now apply wellKeyed_evictOldest | now destruct this]. }
  destruct Hk as [Hu Ht]. split.
  - unfold uniqueKeys in *. simpl in *. now apply map_NoDup_set.
  - unfold keysTruthy in *. simpl in *.
    apply keysTruthy_set; [exact Ht | apply generateKey_truthy].
Qed.

Lemma wellKeyed_step this (op : Op Data) :
  wellKeyed this -> wellKeyed (step this op).
Proof.
  intros Hw. destruct op as [now url params|now url params d|url|now age]; simpl.
  - unfold get. destruct (JSMap.get _ (cache this)) as [entry|]; simpl; [|exact Hw].
    destruct (now - timestamp entry >? maxAge this); simpl; [|exact Hw].
    now apply wellKeyed_filter.
  - now apply wellKeyed_set.
  - unfold invalidate. destruct (JS.truthyOptString url).
    + rewrite deleteAll_as_filter. now apply wellKeyed_filter.
    + split; [apply NoDup_nil | apply Forall_nil].
  - unfold invalidateOlderThan. rewrite deleteAll_as_filter.
    now apply wellKeyed_filter.
Qed.

Lemma wellKeyed_run (ops : list (Op Data)) : forall this,
  wellKeyed this -> wellKeyed (run ops this).
Proof.
  induction ops as [|op ops IH]; intros this Hw; [exact Hw|].
  change (run (op :: ops) this) with (run ops (step this op)).
  apply IH. now apply wellKeyed_step.
Qed.

Lemma wellKeyed_constructor maxAgeSeconds maxEntries :
  wellKeyed (@constructor Data maxAgeSeconds maxEntries).
Proof. split; [apply NoDup_nil | apply Forall_nil]. Qed.

Lemma wellKeyed_reachable maxAgeSeconds maxEntries (ops : list (Op Data)) :
  wellKeyed (run ops (constructor maxAgeSeconds maxEntries)).
Proof. apply wellKeyed_run, wellKeyed_constructor. Qed.

Lemma maxEntries_step this (op : Op Data) :
  maxEntries (step this op) = maxEntries this.
Proof.
  destruct op as [now url params|now url params d|url|now age]; simpl;
    try reflexivity.
  - unfold get. destruct (JSMap.get _ _); [|reflexivity].
    now destruct (_ >? _).
  - unfold invalidate. now destruct (JS.truthyOptString url).
Qed.

Lemma size_filter_le this (f : string * CacheEntry Data -> bool) :
  size (withCache this (filter f (cache this))) <= size this.
Proof.
  unfold size, JSMap.size. simpl.
  pose proof (filter_length_le f (cache this)). lia.
Qed.

(** A [set] leaves at most [maxEntries] entries, or one when [maxEntries]
    is less than one. *)
Lemma size_set_bound this now url params d :
  wellKeyed this ->
  size this <= Z.max 1 (maxEntries this) ->
  size (set now this url params d) <= Z.max 1 (maxEntries this).
Proof.
  intros [Hu Ht] Hs.
  destruct (JSMap.has (generateKey url params) (cache this)) eqn:Hhas.
  - unfold size, JSMap.size in *.
    rewrite (set_present _ _ _ _ _ Hhas).
    rewrite <- (length_map fst). fold (JSMap.keys
      (JSMap.replace (generateKey url params) (entryOf now url params d)
                     (cache this))).
    rewrite map_keys_replace. unfold JSMap.keys. now rewrite length_map.
  - destruct (Z.ltb_spec (size this) (maxEntries this)) as [Hroom|Hfull].
    + unfold size, JSMap.size in *.
      rewrite (set_room _ _ _ _ _ Hroom Hhas), length_app. simpl. lia.
    + assert (Hdec : cache this = [] \/ cache this <> []).
      { destruct (cache this); [now left | right; discriminate]. }
      destruct Hdec as [Hnil|Hne].
      * unfold set, evictOldest, findOldestEntry. rewrite Hnil. simpl.
        destruct (_ && _); unfold size, JSMap.size, JSMap.set; simpl; lia.
      * destruct (set_full this now url params d Hu Ht Hne ltac:(lia) Hhas)
          as (pre & k & e & post & Hsplit & _ & _ & Hset).
        unfold size, JSMap.size in *. rewrite Hset.
        rewrite Hsplit in Hs.
        rewrite !length_app in *. simpl in *. lia.
Qed.

Lemma size_step_bound this (op : Op Data) :
  wellKeyed this ->
  size this <= Z.max 1 (maxEntries this) ->
  size (step this op) <= Z.max 1 (maxEntries this).
Proof.
  intros Hw Hs. destruct op as [now url params|now url params d|url|now age]; simpl.
  - unfold get. destruct (JSMap.get _ (cache this)) as [entry|]; simpl; [|exact Hs].
    destruct (now - timestamp entry >? maxAge this); simpl; [|exact Hs].
    etransitivity; [apply size_filter_le | exact Hs].
  - now apply size_set_bound.
  - unfold invalidate. destruct (JS.truthyOptString url).
    + rewrite deleteAll_as_filter.
      etransitivity; [apply size_filter_le | exact Hs].
    + unfold size, JSMap.size. simpl. lia.
  - unfold invalidateOlderThan. rewrite deleteAll_as_filter.
    etransitivity; [apply size_filter_le | exact Hs].
Qed.

(** X1.  Whatever [maxEntries] a cache was constructed with, also zero or
    a negative number, after every sequence of [get], [set], [invalidate]
    and [invalidateOlderThan] calls its store holds at most
    [max(1, maxEntries)] entries. *)
Theorem size_never_exceeds_capacity_or_one
    (maxAgeSeconds maxEntries : Z) (ops : list (Op Data)) :
  size (run ops (constructor maxAgeSeconds maxEntries)) <= Z.max 1 maxEntries.
Proof.
  assert (H : forall this,
             wellKeyed this ->
             size this <= Z.max 1 (DomCache.maxEntries this) ->
             size (run ops this) <= Z.max 1 (DomCache.maxEntries this)).
  { induction ops as [|op ops IH]; intros this Hw Hs; [exact Hs|].
    change (run (op :: ops) this) with (run ops (step this op)).
    rewrite <- (maxEntries_step this op). apply IH.
    - now apply wellKeyed_step.
    - rewrite maxEntries_step. now apply size_step_bound. }
  apply (H (constructor maxAgeSeconds maxEntries)).
  - apply wellKeyed_constructor.
  - unfold size, JSMap.size. simpl. lia.
Qed.

End ReachableFacts.

(** ** [DOMCache]: the age sweep and the reads *)

Section SweepFacts.

Import DomCache CacheOps Extra.
Context {Data : Type}.
Implicit Types (this : DOMCache Data) (m : JSMap.t (CacheEntry Data)).

Lemma map_get_member key m (e : CacheEntry Data) :
  JSMap.get key m = Some e -> In (key, e) m.
Proof.
  induction m as [|[k w] m IH]; simpl; [discriminate|].
  destruct (String.eqb_spec k key) as [->|_].
  - intros [= ->]. now left.
  - intros H. right. now apply IH.
Qed.

(** X2.  On every reachable cache [invalidateOlderThan(ageSeconds)] at
    time [now] removes exactly the entries whose age exceeds
    [ageSeconds * 1000] milliseconds: the store afterwards is the store
    before without them, in the same order, and a key that was present is
    looked up as absent when its entry was that old and as before
    otherwise.  The threshold is the argument's, not the cache's [maxAge],
    and the limits of the cache are untouched. *)
Theorem invalidateOlderThan_exact
    (maxAgeSeconds maxEntries : Z) (ops : list (Op Data))
    (now ageSeconds : Z) :
  let this := run ops (constructor maxAgeSeconds maxEntries) in
  let after := invalidateOlderThan now this ageSeconds in
  cache after
  = filter (fun kv => negb (olderThanSeconds now ageSeconds kv)) (cache this)
  /\ (forall k e,
         JSMap.get k (cache this) = Some e ->
         JSMap.get k (cache after)
         = if now - timestamp e >? ageSeconds * 1000 then None else Some e)
  /\ maxAge after = maxAge this
  /\ DomCache.maxEntries after = DomCache.maxEntries this.
Proof.
  intros this after.
  destruct (wellKeyed_reachable maxAgeSeconds maxEntries ops) as [Hu _].
  fold this in Hu. unfold uniqueKeys in Hu.
  assert (Hcache : cache after
            = filter (fun kv => negb (olderThanSeconds now ageSeconds kv))
                     (cache this)).
  { subst after. unfold invalidateOlderThan. simpl.
    apply (deleteAll_collected (cache this)
             (fun e => now - timestamp e >? ageSeconds * 1000) Hu). }
  conj_split; [exact Hcache | | reflexivity | reflexivity].
  intros k e Hget. rewrite Hcache. unfold olderThanSeconds.
  pose proof (get_filter_keep (cache this)
                (fun e => negb (now - timestamp e >? ageSeconds * 1000))
                k e Hu Hget) as Hkeep.
  simpl in Hkeep. rewrite Hkeep.
  now destruct (now - timestamp e >? ageSeconds * 1000).
Qed.

(** What a sweep leaves is not older than its threshold. *)
Lemma swept_entries_young this now ageSeconds kv :
  In kv (cache (invalidateOlderThan now this ageSeconds)) ->
  In kv (cache this) /\ now - timestamp (snd kv) <= ageSeconds * 1000.
Proof.
  unfold invalidateOlderThan. simpl. rewrite deleteAll_filter.
  intros Hin. apply filter_In in Hin. destruct Hin as [Hin Hkeep].
  split; [exact Hin|].
  destruct (Z.gtb_spec (now - timestamp (snd kv)) (ageSeconds * 1000))
    as [Hold|Hyoung]; [|lia].
  exfalso. apply negb_true_iff in Hkeep.
  apply not_true_iff_false in Hkeep. apply Hkeep.
  apply existsb_exists. exists (fst kv). split; [|apply String.eqb_refl].
  apply in_map. apply filter_In. split; [exact Hin|].
  now apply Z.gtb_lt.
Qed.

(** X3.  After a sweep whose threshold is at most the cache's own
    [maxAge], a [get] at the time of the sweep meets no expired entry: for
    every page and shape it answers with the payload stored under the key,
    or absent when the key is not there, and it deletes nothing. *)
Theorem get_after_sweep_deletes_nothing this now ageSeconds url params :
  ageSeconds * 1000 <= maxAge this ->
  let swept := invalidateOlderThan now this ageSeconds in
  get now swept url params
  = (option_map data (JSMap.get (generateKey url params) (cache swept)),
     swept).
Proof.
  intros Hage swept. unfold get.
  destruct (JSMap.get (generateKey url params) (cache swept)) as [e|] eqn:Hget;
    [|reflexivity].
  apply map_get_member in Hget.
  apply swept_entries_young in Hget. destruct Hget as [_ Hyoung].
  simpl in Hyoung.
  assert (Hm : maxAge swept = maxAge this) by reflexivity.
  rewrite Hm.
  destruct (Z.gtb_spec (now - timestamp e) (maxAge this)); [lia | reflexivity].
Qed.

(** X4.  A [get] writes nothing and is idempotent: it leaves every other
    key as it was, never grows the store, and a second [get] with the same
    arguments at the same time gives the same answer and changes nothing
    more. *)
Theorem get_idempotent this now url params :
  let answer := fst (get now this url params) in
  let after := snd (get now this url params) in
  get now after url params = (answer, after)
  /\ (forall k, k <> generateKey url params ->
                JSMap.get k (cache after) = JSMap.get k (cache this))
  /\ (forall k e, JSMap.get k (cache after) = Some e ->
                  JSMap.get k (cache this) = Some e)
  /\ size after <= size this.
Proof.
  unfold get.
  destruct (JSMap.get (generateKey url params) (cache this)) as [e|] eqn:Hget.
  - destruct (Z.gtb_spec (now - timestamp e) (maxAge this)) as [Hold|Hnew];
      simpl.
    + rewrite map_get_delete_eq. conj_split.
      * reflexivity.
      * intros k Hk. now apply map_get_delete_ne.
      * intros k e' Hk.
        destruct (String.eqb_spec k (generateKey url params)) as [->|Hne].
        -- rewrite map_get_delete_eq in Hk. discriminate.
        -- now rewrite map_get_delete_ne in Hk.
      * apply size_filter_le.
    + rewrite Hget.
      destruct (Z.gtb_spec (now - timestamp e) (maxAge this)); [lia|].
      conj_split; auto. lia.
  - simpl. rewrite Hget. conj_split; auto. lia.
Qed.

End SweepFacts.

Section SweepExamples.

Import DomCache CacheOps Extra.

Lemma get_after_sweep_deletes_nothing_witness :
  get 60001 (invalidateOlderThan 60001 twoPages 60) "a" noShape
  = (None, invalidateOlderThan 60001 twoPages 60).
Proof.
  apply (get_after_sweep_deletes_nothing twoPages 60001 60 "a" noShape).
  simpl. lia.
Defined.

End SweepExamples.

(** ** The tools and the cache *)

Section ToolFacts.

Import JS DomCache CacheOps Extra QueryDom.

Implicit Types (evaluate : Script -> Completion QueryResult)
               (domCache : DOMCache QueryResult).

Lemma handle_evaluated evaluate currentUrl clock params domCache js result :
  fst (cacheCheck currentUrl clock params domCache) = None ->
  javascript params = Some js -> evaluate js = Normal result ->
  handle evaluate currentUrl clock params domCache
  = (Normal (mkResponse result false None),
     if useCache params
     then set (atSet clock) (snd (cacheCheck currentUrl clock params domCache))
              currentUrl (cacheParams params) result
     else snd (cacheCheck currentUrl clock params domCache)).
Proof.
  unfold handle. destruct (cacheCheck _ _ _ _) as [cached domCache1].
  simpl. now intros -> -> ->.
Qed.

(** X5.  A miss stores and the next call hits.  When a call with
    [useCache] and without [forceRefresh] misses the cache and its script
    evaluates to [result], it answers [result] with [fromCache = false];
    the same call on the same page, made while the clock of its lookup is
    at most [maxAge] past the clock of the store, answers the same [result]
    with [fromCache = true] and the time of its own read as
    [cacheTimestamp], whatever the page would now evaluate to, and leaves
    the cache as it is. *)
Theorem miss_stores_then_hit evaluate evaluate' currentUrl clock clock'
    params domCache js result :
  useCache params = true ->
  forceRefresh params = false ->
  fst (cacheCheck currentUrl clock params domCache) = None ->
  javascript params = Some js ->
  evaluate js = Normal result ->
  atGet clock' - atSet clock <= maxAge domCache ->
  let first := handle evaluate currentUrl clock params domCache in
  fst first = Normal (mkResponse result false None)
  /\ handle evaluate' currentUrl clock' params (snd first)
     = (Normal (mkResponse result true (Some (atStamp clock'))), snd first).
Proof.
  intros Huse Hforce Hmiss Hjs Heval Hage first.
  destruct (cacheCheck_miss_frame _ _ _ _ Hmiss) as (_ & _ & Hmax & _).
  subst first. rewrite (handle_evaluated _ _ _ _ _ _ _ Hmiss Hjs Heval), Huse.
  cbn [fst snd]. split; [reflexivity|].
  unfold handle at 1. unfold cacheCheck at 1. rewrite Huse, Hforce.
  cbn [andb negb].
  rewrite get_after_set_key; [reflexivity | reflexivity | lia].
Qed.

(** X6.  With [useCache = false], or with [forceRefresh = true], the
    handler never serves from the cache: a response it gives has
    [fromCache = false] and no [cacheTimestamp].  With [useCache = false]
    the cache is not touched at all, whatever the outcome of the call.
    With [useCache = true] and [forceRefresh = true] a successful
    evaluation replaces what was stored under the key by the new result,
    stamped with the time of the store. *)
Theorem bypass_never_serves_from_cache evaluate currentUrl clock params
    domCache :
  useCache params && negb (forceRefresh params) = false ->
  let outcome := handle evaluate currentUrl clock params domCache in
  (forall response,
      fst outcome = Normal response ->
      fromCache response = false /\ cacheTimestamp response = None)
  /\ (useCache params = false -> snd outcome = domCache)
  /\ (forall js result,
         useCache params = true ->
         javascript params = Some js -> evaluate js = Normal result ->
         fst outcome = Normal (mkResponse result false None)
         /\ JSMap.get (generateKey currentUrl (cacheParams params))
              (cache (snd outcome))
            = Some (entryOf (atSet clock) currentUrl (cacheParams params)
                            result)).
Proof.
  intros Hbypass outcome. subst outcome.
  unfold handle, cacheCheck. rewrite Hbypass.
  conj_split.
  - intros response.
    destruct (javascript params) as [js|]; [|discriminate].
    destruct (evaluate js) as [result|e]; [|discriminate].
    simpl. intros [= <-]. now split.
  - intros Huse. rewrite Huse.
    destruct (javascript params) as [js|]; [|reflexivity].
    now destruct (evaluate js).
  - intros js result Huse Hjs Heval. rewrite Hjs, Heval, Huse. simpl.
    split; [reflexivity | apply cache_set_lookup].
Qed.

(** X7.  When [olderThanSeconds] is a number other than zero,
    [browser_clear_cache] ignores [url]: the answer and the cache are those
    of the same call without [url].  The cache is swept by age over all
    pages, and the last line reports the size after the sweep. *)
Theorem clear_cache_by_age_ignores_url (Data : Type) (now n : Z)
    (url : option string) (this : DOMCache Data) :
  n <> 0 ->
  ClearCache.handle now (ClearCache.mkParams url (Some n)) this
  = ClearCache.handle now (ClearCache.mkParams None (Some n)) this
  /\ ClearCache.handle now (ClearCache.mkParams url (Some n)) this
     = ([("Cleared cache entries older than " ++ numberToString n
            ++ " seconds")%string;
         ("Current cache size: "
            ++ numberToString (size (invalidateOlderThan now this n))
            ++ " entries")%string],
        invalidateOlderThan now this n).
Proof.
  intros Hn. unfold ClearCache.handle. simpl.
  unfold truthyNumber. destruct (Z.eqb_spec n 0); [contradiction|].
  simpl. split; reflexivity.
Qed.

End ToolFacts.

Section StatusFacts.

Import JS DomCache CacheOps Extra.
Context {Data : Type}.

Lemma length_delete_present (m : JSMap.t (CacheEntry Data)) key e :
  NoDup (JSMap.keys m) -> JSMap.get key m = Some e ->
  S (List.length (JSMap.delete key m)) = List.length m.
Proof.
  intros Hnd Hget. apply map_get_member in Hget.
  apply in_split in Hget. destruct Hget as (pre & post & ->).
  rewrite map_delete_split by exact Hnd.
  rewrite !length_app. simpl. lia.
Qed.

(** X8.  An entry that has expired still counts.  On every reachable
    cache, an entry stored at time [T] is counted by [size()], and so
    reported by [browser_cache_status], at every later time, until a read
    finds it: a [get] under its key more than [maxAge] after [T] answers
    absent and lowers the count by exactly one. *)
Theorem expired_entry_counts_until_read
    (maxAgeSeconds maxEntries : Z) (ops : list (Op Data))
    (T now : Z) (url : string) (params : Params.t) (d : Data) :
  let this := run ops (constructor maxAgeSeconds maxEntries) in
  let stored := set T this url params d in
  now - T > maxAge this ->
  1 <= size stored
  /\ CacheStatus.handle stored
     = [("DOM cache size: " ++ numberToString (size stored)
           ++ " entries")%string]
  /\ fst (get now stored url params) = None
  /\ size (snd (get now stored url params)) = size stored - 1.
Proof.
  intros this stored Hold.
  assert (Hw : wellKeyed stored).
  { apply wellKeyed_set, wellKeyed_reachable. }
  destruct Hw as [Hu _].
  pose proof (cache_set_lookup this url params d T) as Hget.
  fold stored in Hget.
  pose proof (length_delete_present _ _ _ Hu Hget) as Hlen.
  rewrite (get_expired stored url params _ now Hget) by (simpl; lia).
  unfold CacheStatus.handle, size, JSMap.size.
  cbn [fst snd cache withCache].
  conj_split; try reflexivity; lia.
Qed.

End StatusFacts.

Section ToolExamples.

Import JS DomCache CacheOps Extra QueryDom.

Lemma miss_stores_then_hit_witness :
  handle Scenario.detached "http://h/p" (mkClock 2000 2000 2000)
         (Scenario.defaults None (Some ":")) afterFirstCall
  = (Normal (mkResponse colonResult true (Some 2000)), afterFirstCall).
Proof.
  destruct (miss_stores_then_hit
              (Scenario.evaluateOn Scenario.colonPage) Scenario.detached
              "http://h/p" (mkClock 0 0 1000) (mkClock 2000 2000 2000)
              (Scenario.defaults None (Some ":")) domCache
              (SearchScript ":" 0 20 500 true) colonResult
              eq_refl eq_refl eq_refl eq_refl eq_refl)
    as [_ Hhit].
  - simpl. lia.
  - exact Hhit.
Defined.

Lemma bypass_never_serves_from_cache_witness :
  snd (handle Scenario.detached "http://h/p" (mkClock 2000 2000 2000)
              (mkParams None (Some ":") 20 0 true 500 false false)
              afterFirstCall)
  = afterFirstCall.
Proof.
  destruct (bypass_never_serves_from_cache
              Scenario.detached "http://h/p" (mkClock 2000 2000 2000)
              (mkParams None (Some ":") 20 0 true 500 false false)
              afterFirstCall eq_refl)
    as (_ & Hsame & _).
  apply Hsame. reflexivity.
Defined.

Lemma clear_cache_by_age_ignores_url_witness :
  ClearCache.handle 60001 (ClearCache.mkParams (Some "b") (Some 60)) twoPages
  = ClearCache.handle 60001 (ClearCache.mkParams None (Some 60)) twoPages.
Proof.
  apply (clear_cache_by_age_ignores_url Z 60001 60 (Some "b") twoPages).
  discriminate.
Defined.

(** The sweep of the witness removes the entry of page ["a"], stored at
    time [0], and keeps that of page ["b"], stored at time [1], although
    [url] names page ["b"]. *)
Example clear_cache_by_age_run :
  JSMap.keys
    (cache (snd (ClearCache.handle 60001
                   (ClearCache.mkParams (Some "b") (Some 60)) twoPages)))
  = ["b:::0:20"].
Proof. reflexivity. Qed.

Lemma expired_entry_counts_until_read_witness :
  size (snd (get 60001 (set 0 (run [] (constructor 60 100)) "a" noShape 7)
                 "a" noShape))
  = size (set 0 (run [] (constructor 60 100)) "a" noShape 7) - 1.
Proof.
  apply (expired_entry_counts_until_read 60 100 [] 0 60001 "a" noShape 7).
  simpl. lia.
Defined.

Lemma invalidateOlderThan_exact_witness :
  JSMap.get "a:::0:20"
    (cache (invalidateOlderThan 60001
              (run [OpSet 0 "a" noShape 7; OpSet 1 "b" noShape 8]
                   (constructor 60 100)) 60))
  = None.
Proof.
  destruct (invalidateOlderThan_exact 60 100
              [OpSet 0 "a" noShape 7; OpSet 1 "b" noShape 8] 60001 60)
    as (_ & Hlookup & _).
  apply (Hlookup "a:::0:20" (entryOf 0 "a" noShape 7)). reflexivity.
Defined.

Lemma get_idempotent_witness :
  JSMap.get "b:::0:20" (cache (snd (get 60001 twoPages "a" noShape)))
  = JSMap.get "b:::0:20" (cache twoPages).
Proof.
  destruct (get_idempotent twoPages 60001 "a" noShape) as (_ & Hframe & _).
  apply Hframe. discriminate.
Defined.

End ToolExamples.

(** ** [browser_query_dom]: the page of a search *)

Section PageFacts.

Import JS QueryDom Extra.


Lemma slice_length_from_end {A : Type} (limit : Z) (a : list A) :
  limit < 0 ->
  Z.of_nat (List.length (slice 0 (0 + limit) a))
  = Z.max 0 (Z.of_nat (List.length a) + limit).
Proof.
  intros Hl. unfold slice, relativeIndex.
  destruct (Z.ltb_spec 0 0); [lia|].
  destruct (Z.ltb_spec (0 + limit) 0); [|lia].
  rewrite length_firstn, length_skipn. lia.
Qed.

Lemma mapFrom_length {A B : Type} (f : Z -> A -> B) (l : list A) : forall i,
  List.length (mapFrom f i l) = List.length l.
Proof. induction l; intros i; simpl; [reflexivity | now rewrite IHl]. Qed.



(** With a negative end [slice] from the start drops the last elements. *)
Lemma slice_but_last {A : Type} (limit : Z) (a : list A) :
  limit < 0 ->
  slice 0 (0 + limit) a
  = firstn (Z.to_nat (Z.of_nat (List.length a) + limit)) a.
Proof.
  intros Hl. unfold slice, relativeIndex.
  destruct (Z.ltb_spec 0 0); [lia|].
  destruct (Z.ltb_spec (0 + limit) 0); [|lia].
  replace (Z.to_nat (Z.min 0 (Z.of_nat (List.length a)))) with O by lia.
  cbn [skipn]. f_equal. lia.
Qed.

Lemma limitOf_range params :
  limitOf params <= 100
  /\ (0 <= QueryDom.limit params -> 1 <= limitOf params)
  /\ (QueryDom.limit params < 0 -> limitOf params = QueryDom.limit params).
Proof.
  unfold limitOf, orNumber, truthyNumber.
  destruct (Z.eqb_spec (QueryDom.limit params) 0); simpl; lia.
Qed.

Lemma offsetOf_id params : offsetOf params = QueryDom.offset params.
Proof.
  unfold offsetOf, orNumber, truthyNumber.
  destruct (Z.eqb_spec (QueryDom.offset params) 0); simpl; lia.
Qed.


(** X10.  A negative [limit] is not capped.  With [offset = 0] the script
    is given the negative limit as it is, [slice] counts it from the end,
    and the page describes every sorted match but the last [-limit],
    however many those are: the bound of [100] does not apply.  [hasMore]
    is true. *)
Theorem negative_limit_counts_from_end doc rawSearchText params matches :
  QueryDom.offset params = 0 ->
  QueryDom.limit params < 0 ->
  let result :=
    sortAndPaginate doc rawSearchText (offsetOf params) (limitOf params)
                    (maxTextLengthOf params) (includeAttributes params)
                    matches in
  Result.limit result = QueryDom.limit params
  /\ Result.elements result
     = mapFrom (describeMatch doc 0 (maxTextLengthOf params)
                              (includeAttributes params)) 0
               (firstn (Z.to_nat (Z.of_nat (List.length matches)
                                  + QueryDom.limit params))
                       (sortMatches matches))
  /\ Result.returnedCount result
     = Z.max 0 (Z.of_nat (List.length matches) + QueryDom.limit params)
  /\ Result.hasMore result = true.
Proof.
  intros Ho Hl result.
  destruct (limitOf_range params) as (_ & _ & Hneg). specialize (Hneg Hl).
  assert (Hoff : offsetOf params = 0) by (now rewrite offsetOf_id).
  subst result. unfold sortAndPaginate. rewrite Hoff, Hneg.
  cbn [Result.limit Result.elements Result.returnedCount Result.hasMore].
  conj_split.
  - reflexivity.
  - rewrite (slice_but_last _ _ Hl).
    now rewrite (Permutation_length (sortMatches_perm matches)).
  - rewrite mapFrom_length, (slice_length_from_end _ _ Hl).
    now rewrite (Permutation_length (sortMatches_perm matches)).
  - apply Z.ltb_lt. lia.
Qed.

End PageFacts.

(** ** [browser_query_dom]: the selector script *)

Section SelectorFacts.

Import JS QueryDom Extra.

Variable textContent : Dom.Element -> string.
Variable doc : Dom.Document.
Variables (maxTextLength : Z) (includeAttributes : bool).

Let describe : Z -> Dom.Element -> ElementInfo :=
  SelectorScript.describeElement textContent doc maxTextLength
                                 includeAttributes.

Let loop : list Dom.Element -> nat -> Z -> list ElementInfo
           -> Completion (list ElementInfo) :=
  SelectorScript.loop textContent doc maxTextLength includeAttributes.

Lemma item_in_range (elements : list Dom.Element) (i : Z) :
  0 <= i < Z.of_nat (List.length elements) ->
  exists el, SelectorScript.item elements i = Some el
             /\ skipn (Z.to_nat i) elements
                = el :: skipn (Z.to_nat (i + 1)) elements.
Proof.
  intros Hi. unfold SelectorScript.item.
  destruct (Z.ltb_spec i 0); [lia|].
  replace (Z.to_nat (i + 1)) with (S (Z.to_nat i)) by lia.
  assert (Hlt : (Z.to_nat i < List.length elements)%nat) by lia.
  revert Hlt. generalize (Z.to_nat i) as n. clear Hi H.
  induction elements as [|x xs IH]; intros n Hlt; simpl in Hlt; [lia|].
  destruct n as [|n].
  - exists x. split; reflexivity.
  - destruct (IH n ltac:(lia)) as (el & Hnth & Hskip).
    exists el. split; [exact Hnth | exact Hskip].
Qed.

(** Inside the list the loop appends the descriptions of the next [n]
    elements. *)
Lemma loop_in_range (elements : list Dom.Element) : forall n i results,
  0 <= i -> i + Z.of_nat n <= Z.of_nat (List.length elements) ->
  loop elements n i results
  = Normal (results
              ++ mapFrom describe i (firstn n (skipn (Z.to_nat i) elements))).
Proof.
  induction n as [|n IH]; intros i results Hi Hn.
  - simpl. now rewrite app_nil_r.
  - destruct (item_in_range elements i ltac:(lia)) as (el & Hitem & Hskip).
    unfold loop in *. cbn [SelectorScript.loop]. rewrite Hitem.
    rewrite IH by lia. rewrite Hskip. simpl.
    now rewrite <- app_assoc.
Qed.

Lemma loop_before_start (elements : list Dom.Element) n i results :
  i < 0 -> loop elements (S n) i results = Throw SelectorScript.typeError.
Proof.
  intros Hi. unfold loop. simpl. unfold SelectorScript.item.
  destruct (Z.ltb_spec i 0); [reflexivity | lia].
Qed.

Lemma describe_counts (elements : list Dom.Element) : forall i,
  countsFrom i (mapFrom describe i elements)
  /\ Forall (fun info => relevanceScore info = None)
            (mapFrom describe i elements).
Proof.
  induction elements as [|el rest IH]; intros i; simpl.
  - split; [exact I | constructor].
  - destruct (IH (i + 1)) as [Hc Hn].
    split; [split; [reflexivity | exact Hc] | constructor; [reflexivity | exact Hn]].
Qed.

(** X11.  The page of a selector query with a non-negative [offset].  The
    script returns, whatever the limit: [totalCount] is the number of
    elements the selector matched; the page holds the elements from
    position [offset] on, at most [limit] and never more than there are
    (none when the limit is not positive); their indices count up from
    [offset], and none has a relevance score; [hasMore] is true exactly
    when [offset + limit < totalCount]. *)
Theorem selector_page_counts (elements : list Dom.Element) (offset limit : Z) :
  0 <= offset ->
  exists result,
    SelectorScript.run textContent doc elements offset limit maxTextLength
                       includeAttributes = Normal result
    /\ Result.searchText result = None
    /\ Result.totalCount result = Z.of_nat (List.length elements)
    /\ Result.elements result
       = mapFrom describe offset
           (firstn (Z.to_nat (Z.min limit
                                (Z.of_nat (List.length elements) - offset)))
                   (skipn (Z.to_nat offset) elements))
    /\ Result.returnedCount result
       = Z.max 0 (Z.min limit (Result.totalCount result - offset))
    /\ Result.hasMore result = (offset + limit <? Result.totalCount result)
    /\ countsFrom offset (Result.elements result)
    /\ Forall (fun info => relevanceScore info = None)
              (Result.elements result).
Proof.
  intros Ho. unfold SelectorScript.run.
  set (total := Z.of_nat (List.length elements)).
  set (n := Z.to_nat (Z.min total (offset + limit) - offset)).
  assert (Hn : n = Z.to_nat (Z.min limit (total - offset))) by lia.
  assert (Hloop : loop elements n offset []
                  = Normal (mapFrom describe offset
                              (firstn n (skipn (Z.to_nat offset) elements)))).
  { destruct n as [|n'] eqn:En.
    - reflexivity.
    - rewrite loop_in_range; [reflexivity | lia | lia]. }
  unfold loop in Hloop. rewrite Hloop. eexists. split; [reflexivity|].
  cbn [Result.searchText Result.totalCount Result.elements
       Result.returnedCount Result.hasMore].
  destruct (describe_counts (firstn n (skipn (Z.to_nat offset) elements)) offset)
    as [Hc Hs].
  conj_split; try reflexivity.
  - now rewrite Hn.
  - rewrite mapFrom_length, length_firstn, length_skipn. lia.
  - exact Hc.
  - exact Hs.
Qed.

(** X12.  A negative [offset] makes the selector script throw as soon as
    the limit is positive, whatever the selector matched: the loop starts
    at the index [offset] and reads [elements[offset]], which is
    [undefined].  With a limit that is not positive the loop does not run
    and the script returns an empty page. *)
Theorem selector_negative_offset_throws
    (elements : list Dom.Element) (offset limit : Z) :
  offset < 0 ->
  (0 < limit ->
   SelectorScript.run textContent doc elements offset limit maxTextLength
                      includeAttributes = Throw SelectorScript.typeError)
  /\ (limit <= 0 ->
      SelectorScript.run textContent doc elements offset limit maxTextLength
                         includeAttributes
      = Normal (Result.mk None (Z.of_nat (List.length elements)) offset limit
                          0 (offset + limit <? Z.of_nat (List.length elements))
                          [])).
Proof.
  intros Ho. unfold SelectorScript.run.
  set (total := Z.of_nat (List.length elements)).
  split; intros Hl.
  - destruct (Z.to_nat (Z.min total (offset + limit) - offset)) as [|n] eqn:En;
      [lia|].
    pose proof (loop_before_start elements n offset [] Ho) as Hthrow.
    unfold loop in Hthrow. now rewrite Hthrow.
  - replace (Z.to_nat (Z.min total (offset + limit) - offset)) with O by lia.
    reflexivity.
Qed.

End SelectorFacts.

Section SelectorExamples.

Import JS QueryDom Extra.

Lemma selector_page_counts_witness :
  exists result,
    SelectorScript.run noText (Scenario.window listItems) listItems 20 10 500
                       true = Normal result
    /\ Result.totalCount result = 25
    /\ Result.returnedCount result = 5
    /\ Result.hasMore result = false.
Proof.
  destruct (selector_page_counts noText (Scenario.window listItems) 500 true
              listItems 20 10)
    as (result & Hrun & _ & Htotal & _ & Hcount & Hmore & _); [lia|].
  exists result. rewrite Hcount, Hmore, Htotal. conj_split; auto.
Defined.

Lemma selector_negative_offset_throws_witness :
  SelectorScript.run noText (Scenario.window listItems) listItems (-5) 10 500
                     true = Throw SelectorScript.typeError.
Proof.
  destruct (selector_negative_offset_throws noText (Scenario.window listItems)
              500 true listItems (-5) 10) as [Hthrow _]; [lia|].
  apply Hthrow. lia.
Defined.

End SelectorExamples.

(** ** [browser_query_dom]: what a search returns *)

Section ResultFacts.

Import JS QueryDom SearchSpec Extra.











End ResultFacts.

Section ResultExamples.

Import JS QueryDom SearchSpec Extra.



End ResultExamples.

(** ** [DOMCache]: when two shapes share a key *)

Section KeyInjectivity.

Import JS DomCache Extra.

Lemma append_cancel (u x y : string) : (u ++ x = u ++ y)%string -> x = y.
Proof.
  induction u as [|c u IH]; simpl; [auto|].
  intros [= H]. now apply IH.
Qed.

(** Two texts without a colon, each followed by a colon, are split off
    alike. *)
Lemma colon_split (a a' r r' : string) :
  colonFree a = true -> colonFree a' = true ->
  (a ++ String ":" r = a' ++ String ":" r')%string ->
  a = a' /\ r = r'.
Proof.
  revert a'. induction a as [|c a IH]; intros [|c' a'] Ha Ha'; simpl in *.
  - intros [= ->]. now split.
  - intros [= <- _]. discriminate.
  - intros [= -> _]. discriminate.
  - intros [= <- H].
    apply andb_prop in Ha. apply andb_prop in Ha'.
    destruct (IH a' (proj2 Ha) (proj2 Ha') H) as [-> ->]. now split.
Qed.

Lemma colonFree_digits (d : Decimal.uint) :
  colonFree (NilEmpty.string_of_uint d) = true.
Proof. induction d; simpl; auto. Qed.

Lemma colonFree_number (n : Z) : colonFree (numberToString n) = true.
Proof.
  unfold numberToString, NilZero.string_of_int, NilZero.string_of_uint.
  destruct (Z.to_int n) as [d|d]; destruct d; simpl;
    auto using colonFree_digits.
Qed.

Lemma numberToString_injective (n n' : Z) :
  numberToString n = numberToString n' -> n = n'.
Proof.
  unfold numberToString. intros H.
  assert (Hnonnil : forall z, Z.to_int z <> Decimal.Pos Decimal.Nil
                              /\ Z.to_int z <> Decimal.Neg Decimal.Nil).
  { intros [|p|p]; simpl; split; try discriminate;
      intros [= E]; now apply (DecimalPos.Unsigned.to_uint_nonnil p). }
  destruct (Hnonnil n) as [Hp Hn]. destruct (Hnonnil n') as [Hp' Hn'].
  pose proof (NilZero.isi _ Hp Hn) as E.
  pose proof (NilZero.isi _ Hp' Hn') as E'.
  rewrite H, E' in E. injection E as E.
  rewrite <- (DecimalZ.of_to n), <- (DecimalZ.of_to n'). now rewrite E.
Qed.

(** X15.  Where keys do not collide.  For one page, two query shapes
    whose selector and search text contain no colon have the same key
    exactly when they agree after the defaults of the key: the same
    selector (absent counts as empty), the same search text, the same
    offset (absent counts as [0]) and the same limit (absent or [0] counts
    as [20]). *)
Theorem generateKey_injective_without_colons url params params' :
  colonFree (orString (Params.selector params) EmptyString) = true ->
  colonFree (orString (Params.searchText params) EmptyString) = true ->
  colonFree (orString (Params.selector params') EmptyString) = true ->
  colonFree (orString (Params.searchText params') EmptyString) = true ->
  generateKey url params = generateKey url params'
  <-> components params = components params'.
Proof.
  intros Hs Ht Hs' Ht'. unfold generateKey, components. split.
  - intros H. apply append_cancel in H. simpl in H. injection H as H.
    destruct (colon_split _ _ _ _ Hs Hs' H) as [Esel H1].
    destruct (colon_split _ _ _ _ Ht Ht' H1) as [Etext H2].
    destruct (colon_split _ _ _ _ (colonFree_number _) (colonFree_number _) H2)
      as [Eoff Elim].
    apply numberToString_injective in Eoff, Elim.
    now rewrite Esel, Etext, Eoff, Elim.
  - intros [= -> -> -> ->]. reflexivity.
Qed.

Lemma generateKey_injective_without_colons_witness :
  generateKey "http://h/p" (Params.mk (Some "li") None None (Some 10))
  <> generateKey "http://h/p" (Params.mk (Some "li") None (Some 10) None).
Proof.
  intros H.
  apply (generateKey_injective_without_colons "http://h/p"
           (Params.mk (Some "li") None None (Some 10))
           (Params.mk (Some "li") None (Some 10) None)
           eq_refl eq_refl eq_refl eq_refl) in H.
  discriminate H.
Defined.

End KeyInjectivity.

(** ** [browser_query_dom]: tiers of a plain search text, and a hit across
    settings *)

Section MoreQueryFacts.

Import JS DomCache CacheOps QueryDom SearchSpec Extra.

Lemma tierOf_present searchText directText :
  includes (toLowerCase directText) searchText = true ->
  10 <= tierOf searchText directText.
Proof.
  intros Hinc. unfold tierOf.
  destruct (String.eqb _ _); [lia|].
  destruct (startsWith _ _); [lia|].
  destruct (RegExp.matchFrom _ _ _); [lia|].
  rewrite Hinc. lia.
Qed.

(** X16.  The scoring policy for a search text without pattern syntax
    (lower case, as the script makes it).  The score of an element is one
    tier plus its bonuses, the bonuses being [5] for a box of positive
    width and height and [10] for a heading, button, link or label.  The
    tier is [100] exactly when the direct text is the search text up to
    case; it is at least [10] exactly when the direct text contains the
    search text; otherwise it is [0], so an element that matched through
    an attribute value only scores its bonuses. *)
Theorem plain_search_tiers searchText directText el :
  plain searchText = true ->
  toLowerCase searchText = searchText ->
  exists tier,
    scoreOf searchText directText el = Some (tier + bonuses el)
    /\ In tier [100; 50; 30; 10; 0]
    /\ (tier = 100 <-> toLowerCase directText = searchText)
    /\ (10 <= tier <-> includes (toLowerCase directText) searchText = true)
    /\ 0 <= bonuses el <= 15.
Proof.
  intros Hp Hlow. exists (tierOf searchText directText).
  destruct (scoreOf_plain searchText directText el Hp Hlow)
    as (Hscore & Hin & _).
  conj_split; try exact Hscore; try exact Hin; try apply bonuses_range.
  - split.
    + intros Htier.
      pose proof (textScore_plain searchText directText Hp) as Ht.
      destruct (textScore_exact _ _ _ Ht) as [[He _]|[_ Hr]]; [exact He | lia].
    + intros He. unfold tierOf. rewrite He, String.eqb_refl. reflexivity.
  - split.
    + intros Htier.
      destruct (includes (toLowerCase directText) searchText) eqn:Hinc;
        [reflexivity|].
      rewrite (tierOf_absent _ _ Hlow Hinc) in Htier. lia.
    + apply tierOf_present.
Qed.

(** X17.  The cache key leaves [includeAttributes] and [maxTextLength]
    out.  After a call that missed and stored its result, a call on the
    same page with the same selector, search text, offset and limit is
    served that stored result while it is fresh, whatever its own
    [includeAttributes] and [maxTextLength] are: the result is the one
    computed under the settings of the first call. *)
Theorem hit_ignores_attribute_and_length_settings evaluate evaluate'
    currentUrl clock clock' params domCache js result
    (includeAttributes' : bool) (maxTextLength' : Z) :
  useCache params = true ->
  forceRefresh params = false ->
  fst (cacheCheck currentUrl clock params domCache) = None ->
  javascript params = Some js ->
  evaluate js = Normal result ->
  atGet clock' - atSet clock <= maxAge domCache ->
  let first := handle evaluate currentUrl clock params domCache in
  let params' :=
    mkParams (QueryDom.selector params) (QueryDom.searchText params)
             (QueryDom.limit params) (QueryDom.offset params)
             includeAttributes' maxTextLength' true false in
  handle evaluate' currentUrl clock' params' (snd first)
  = (Normal (mkResponse result true (Some (atStamp clock'))), snd first).
Proof.
  intros Huse Hforce Hmiss Hjs Heval Hage first params'.
  destruct (cacheCheck_miss_frame _ _ _ _ Hmiss) as (_ & _ & Hmax & _).
  subst first. rewrite (handle_evaluated _ _ _ _ _ _ _ Hmiss Hjs Heval), Huse.
  cbn [fst snd].
  unfold handle at 1. unfold cacheCheck at 1. subst params'.
  cbn [useCache forceRefresh andb negb].
  change (cacheParams (mkParams (QueryDom.selector params)
                         (QueryDom.searchText params) (QueryDom.limit params)
                         (QueryDom.offset params) includeAttributes'
                         maxTextLength' true false))
    with (cacheParams params).
  rewrite get_after_set_key; [reflexivity | reflexivity | lia].
Qed.

End MoreQueryFacts.

Section MoreQueryExamples.

Import JS DomCache CacheOps QueryDom SearchSpec Extra.

Lemma plain_search_tiers_witness :
  exists tier,
    scoreOf "submit" "Please submit the form" Scenario.paragraph
    = Some (tier + bonuses Scenario.paragraph)
    /\ In tier [100; 50; 30; 10; 0].
Proof.
  destruct (plain_search_tiers "submit" "Please submit the form"
              Scenario.paragraph eq_refl eq_refl)
    as (tier & Hscore & Hin & _).
  exists tier. now split.
Defined.

Lemma hit_ignores_attribute_and_length_settings_witness :
  handle Scenario.detached "http://h/p" (mkClock 2000 2000 2000)
         (mkParams None (Some ":") 20 0 false 10 true false) afterFirstCall
  = (Normal (mkResponse colonResult true (Some 2000)), afterFirstCall).
Proof.
  apply (hit_ignores_attribute_and_length_settings
           (Scenario.evaluateOn Scenario.colonPage) Scenario.detached
           "http://h/p" (mkClock 0 0 1000) (mkClock 2000 2000 2000)
           (Scenario.defaults None (Some ":")) domCache
           (SearchScript ":" 0 20 500 true) colonResult false 10
           eq_refl eq_refl eq_refl eq_refl eq_refl).
  simpl. lia.
Defined.

End MoreQueryExamples.

Section PageExamples.

Import JS QueryDom Extra.


Lemma negative_limit_counts_from_end_witness :
  map tagName
      (Result.elements (ThreeMatches.pageOf ThreeMatches.allButLast))
  = ["button"; "label"]
  /\ Result.returnedCount (ThreeMatches.pageOf ThreeMatches.allButLast) = 2
  /\ Result.hasMore (ThreeMatches.pageOf ThreeMatches.allButLast) = true.
Proof.
  set (result := ThreeMatches.pageOf ThreeMatches.allButLast).
  destruct (negative_limit_counts_from_end ThreeMatches.page "submit"
              ThreeMatches.allButLast ThreeMatches.matches)
    as (_ & Helems & Hcount & Hmore); [reflexivity | simpl; lia |].
  change (sortAndPaginate _ _ _ _ _ _ _) with result
    in Helems, Hcount, Hmore.
  conj_split.
  - rewrite Helems. reflexivity.
  - rewrite Hcount. reflexivity.
  - exact Hmore.
Defined.

(** With a limit of [-1] the search of the scenario returns one of its
    two matches and says that more remain. *)
Example negative_limit_run :
  option_map
    (fun r => (map textContent (Result.elements r), Result.hasMore r))
    (searchScript Scenario.exactLast "submit" 0 (-1) 500 true)
  = Some (["Submit"], true).
Proof. reflexivity. Qed.

End PageExamples.

(** * Lookup after store, with calls in between *)

Section BetweenFacts.

Import DomCache CacheOps Extra Between.
Context {Data : Type}.
Implicit Types (this : DOMCache Data) (op : Op Data).

Lemma map_get_set_other (m : JSMap.t (CacheEntry Data)) key k e :
  k <> key -> JSMap.get k (JSMap.set key e m) = JSMap.get k m.
Proof.
  intros Hne. unfold JSMap.set. destruct (JSMap.has key m).
  - now apply map_get_replace_ne.
  - rewrite map_get_app. destruct (JSMap.get k m); [reflexivity|]. simpl.
    destruct (String.eqb_spec key k); [congruence | reflexivity].
Qed.

(** A store under another key that does not evict the entry leaves it. *)
Lemma set_spares this key now url params d :
  generateKey url params <> key ->
  JSMap.has (generateKey url params) (cache this) = true
  \/ size this < maxEntries this
  \/ findOldestEntry this <> Some key ->
  JSMap.get key (cache (set now this url params d))
  = JSMap.get key (cache this).
Proof.
  intros Hne Hcase. unfold set. cbn [cache withCache].
  rewrite map_get_set_other by congruence.
  destruct (Z.geb_spec (JSMap.size (cache this)) (maxEntries this))
    as [Hfull|Hroom]; [|reflexivity].
  destruct (JSMap.has (generateKey url params) (cache this)) eqn:Hhas;
    [reflexivity|].
  cbn [andb negb]. unfold evictOldest.
  destruct (findOldestEntry this) as [k|] eqn:Hk; [|reflexivity].
  destruct (JS.truthyString k); [|reflexivity].
  apply map_get_delete_ne.
  destruct Hcase as [H|[H|H]]; [discriminate | unfold size in H; lia |].
  intros ->. now apply H.
Qed.

(** Each call that spares the entry leaves it under its key. *)
Lemma step_spares this op key T url params d :
  wellKeyed this ->
  JSMap.get key (cache this) = Some (entryOf T url params d) ->
  spares key T url this op ->
  JSMap.get key (cache (step this op)) = Some (entryOf T url params d).
Proof.
  intros [Hu _] Hget Hop.
  destruct op as [now url' params'|now url' params' d'|o|now age];
    cbn [step spares] in *.
  - unfold get.
    destruct (String.eqb_spec (generateKey url' params') key) as [Heq|Hne].
    + rewrite Heq, Hget. cbn [timestamp entryOf].
      destruct Hop as [Hop|Hop]; [contradiction|].
      destruct (Z.gtb_spec (now - T) (maxAge this)); [lia | exact Hget].
    + destruct (JSMap.get (generateKey url' params') (cache this)) as [e|];
        [|exact Hget].
      destruct (now - timestamp e >? maxAge this); [|exact Hget].
      cbn [snd cache withCache]. rewrite map_get_delete_ne by congruence.
      exact Hget.
  - destruct Hop as [Hne Hcase]. now rewrite set_spares.
  - destruct Hop as (other & -> & Hother & Hpage).
    rewrite (invalidate_url _ _ Hother). cbn [cache withCache].
    rewrite (deleteAll_collected (cache this)
               (fun e => String.eqb (DomCache.url e) other) Hu).
    pose proof (get_filter_keep (cache this)
                  (fun e => negb (String.eqb (DomCache.url e) other))
                  key _ Hu Hget) as Hkeep.
    cbn beta in Hkeep. rewrite Hkeep. cbn [DomCache.url entryOf].
    destruct (String.eqb_spec url other); [congruence | reflexivity].
  - unfold invalidateOlderThan. cbn [cache withCache].
    rewrite (deleteAll_collected (cache this)
               (fun e => now - timestamp e >? age * 1000) Hu).
    pose proof (get_filter_keep (cache this)
                  (fun e => negb (now - timestamp e >? age * 1000))
                  key _ Hu Hget) as Hkeep.
    cbn beta in Hkeep. rewrite Hkeep. cbn [timestamp entryOf].
    destruct (Z.gtb_spec (now - T) (age * 1000)); [lia | reflexivity].
Qed.

Lemma run_spares (ops : list (Op Data)) key T url params d : forall this,
  wellKeyed this ->
  JSMap.get key (cache this) = Some (entryOf T url params d) ->
  undisturbed key T url ops this ->
  JSMap.get key (cache (run ops this)) = Some (entryOf T url params d).
Proof.
  induction ops as [|op ops IH]; intros this Hw Hget Hops; [exact Hget|].
  destruct Hops as [Hop Hrest].
  change (run (op :: ops) this) with (run ops (step this op)).
  apply IH; [now apply wellKeyed_step | | exact Hrest].
  now apply (step_spares this op key T url params d).
Qed.

(** C1, as the code has it.  After [set(url, params, d)] at time [tSet],
    a [get] with the same [url] and [params] at a time [tGet] no more than
    [maxAge] later (so in particular before [maxAge] has elapsed) returns
    exactly [d]: when it directly follows the [set], and then the cache is
    left as [set] left it; and, on a cache with unique keys, after any
    calls in between each of which spares the entry, namely a read that
    does not find it expired, a store under another key that does not
    evict it, an invalidation of another page named by a non-empty string,
    or a sweep whose threshold its age does not exceed. *)
Theorem get_after_set_undisturbed this url params d tSet tGet :
  tGet - tSet <= maxAge this ->
  get tGet (set tSet this url params d) url params
  = (Some d, set tSet this url params d)
  /\ forall ops : list (Op Data),
       wellKeyed this ->
       undisturbed (generateKey url params) tSet url ops
                   (set tSet this url params d) ->
       get tGet (run ops (set tSet this url params d)) url params
       = (Some d, run ops (set tSet this url params d)).
Proof.
  intros Hage. split; [now apply get_after_set_key|].
  intros ops Hw Hops.
  apply (get_fresh _ url params (entryOf tSet url params d)).
  - apply run_spares; [now apply wellKeyed_set | apply cache_set_lookup
                       | exact Hops].
  - rewrite maxAge_run. exact Hage.
Qed.

End BetweenFacts.

Section BetweenExamples.

Import DomCache CacheOps Extra Between.

Lemma get_after_set_undisturbed_witness :
  get 59999
      (run [OpGet 10 "a" noShape; OpSet 20 "b" noShape 8;
            OpInvalidate (Some "b"); OpInvalidateOlderThan 30 1]
           (set 0 (constructor 60 2) "a" noShape 7))
      "a" noShape
  = (Some 7,
     run [OpGet 10 "a" noShape; OpSet 20 "b" noShape 8;
          OpInvalidate (Some "b"); OpInvalidateOlderThan 30 1]
         (set 0 (constructor 60 2) "a" noShape 7)).
Proof.
  destruct (get_after_set_undisturbed (constructor 60 2) "a" noShape 7 0 59999)
    as [_ Hbetween]; [simpl; lia|].
  apply Hbetween.
  - apply wellKeyed_constructor.
  - cbn [undisturbed spares].
    split; [right; simpl; lia|].
    split; [split; [discriminate | right; left; vm_compute; reflexivity]|].
    split; [exists "b"; split; [reflexivity | split; discriminate]|].
    split; [lia | exact I].
Defined.

(** C1 as stated fails when the store is at capacity: a [set] under
    another key, which is no [set] or [invalidate] on the key of the
    entry, evicts the entry, and the [get] that follows answers absent. *)
Lemma get_after_set_evicted :
  ~ (forall (this : DOMCache Z) url params d tSet tGet (ops : list (Op Z)),
        tGet - tSet <= maxAge this ->
        Forall (onOtherKey (generateKey url params)) ops ->
        fst (get tGet (run ops (set tSet this url params d)) url params)
        = Some d).
Proof.
  intros H.
  specialize (H (constructor 60 1) "a" noShape 7 0 2 [OpSet 1 "b" noShape 8]).
  assert (Hget : fst (get 2 (run [OpSet 1 "b" noShape 8]
                               (set 0 (constructor 60 1) "a" noShape 7))
                          "a" noShape) = None) by reflexivity.
  rewrite H in Hget; [discriminate | simpl; lia |].
  constructor; [simpl; discriminate | constructor].
Qed.

End BetweenExamples.

(** * Ranking and pagination of a search *)

Section RankingWith.

Import JS QueryDom SearchSpec SearchWith.

Variable test : string -> string -> option bool.






End RankingWith.

Section RankingTheoremWith.

Import JS QueryDom SearchSpec SearchWith.





End RankingTheoremWith.
